(** * python2proto: the schema emitter of [python2proto/__init__.py]

    A shallow embedding of [pydantic_models_to_protos] and of the helpers
    it calls, followed by the properties of the generated schema text.

    - Python type objects are the inductive [py_type]; class objects live
      in a class table indexed by handle, so that cyclic and
      self-referential declarations can be written down.
    - The set passed as [already_visited] is an object of a heap of set
      objects: [visited_models] is a reference into that heap, shared with
      the caller when the caller's set is used.
    - [parse_model] is a closure over [visited_models] and
      [proto_messages]; it is embedded with explicit state passing, an
      outcome monad for exceptions, and a bound on the call depth. *)

From Stdlib Require Import Ascii String.
From stdpp Require Import base decidable countable gmap list strings pretty.

Local Open Scope string_scope.
Local Open Scope list_scope.

(** ** Strings *)

Module Str.

(** The line feed ["\n"]. *)
Definition nl : string := String "010"%char EmptyString.

(** [str.isspace] on the code points 0..255. *)
Definition is_space (c : ascii) : bool :=
  let n := nat_of_ascii c in
  (Nat.leb 9 n && Nat.leb n 13) || (Nat.leb 28 n && Nat.leb n 32)
  || Nat.eqb n 133 || Nat.eqb n 160.

Fixpoint lstrip (s : string) : string :=
  match s with
  | EmptyString => EmptyString
  | String c s' => if is_space c then lstrip s' else s
  end.

Fixpoint rstrip (s : string) : string :=
  match s with
  | EmptyString => EmptyString
  | String c s' =>
      match rstrip s' with
      | EmptyString => if is_space c then EmptyString else String c EmptyString
      | r => String c r
      end
  end.

(** [s.strip()] *)
Definition strip (s : string) : string := lstrip (rstrip s).

(** [s.startswith(p)] *)
Definition startswith (s p : string) : bool := String.prefix p s.

Fixpoint rev (s : string) : string :=
  match s with
  | EmptyString => EmptyString
  | String c s' => rev s' +:+ String c EmptyString
  end.

(** [s.endswith(p)] *)
Definition endswith (s p : string) : bool := String.prefix (rev p) (rev s).

(** [sep.join(l)] *)
Fixpoint join (sep : string) (l : list string) : string :=
  match l with
  | [] => EmptyString
  | [x] => x
  | x :: l' => x +:+ sep +:+ join sep l'
  end.

End Str.

(** ** Type objects *)

Definition handle := nat.

(** Class objects: the built-in classes the source names, and every other
    class, identified by its handle in the class table. *)
Inductive py_class : Type :=
  | Cint | Cfloat | Cstr | Cbool | Cbytes
  | CNoneType
  | Cobj (h : handle).

(** What [getattr(t, '__origin__', None)] can be compared with. *)
Inductive py_origin : Type :=
  | OUnion            (* typing.Union *)
  | OList             (* list *)
  | ODict             (* dict *)
  | OOther.           (* tuple, set, ...: an origin without attrs or
                         dataclass fields *)

(** Objects found as annotations. *)
#[local] Unset Elimination Schemes.
Inductive py_type : Type :=
  | TClass (c : py_class)
  | TAny                                           (* typing.Any *)
  | TAlias (origin : py_origin) (args : list py_type)
      (* a generic alias with [__origin__] and [__args__] *)
  | TBare (origin : py_origin)
      (* [typing.List], [typing.Dict], ... without a subscript:
         [__origin__] is there, reading [__args__] raises *)
  | TOpaque.  (* a forward reference, a string, a type variable, ... *)
#[local] Set Elimination Schemes.

Abbreviation Tint := (TClass Cint).
Abbreviation Tfloat := (TClass Cfloat).
Abbreviation Tstr := (TClass Cstr).
Abbreviation Tbool := (TClass Cbool).
Abbreviation Tbytes := (TClass Cbytes).
Abbreviation TNoneType := (TClass CNoneType).

Global Instance py_class_eq_dec : EqDecision py_class.
Proof. solve_decision. Defined.

Definition py_class_code (c : py_class) : nat + nat :=
  match c with
  | Cint => inl 0 | Cfloat => inl 1 | Cstr => inl 2 | Cbool => inl 3
  | Cbytes => inl 4 | CNoneType => inl 5
  | Cobj h => inr h
  end.

Definition py_class_of_code (x : nat + nat) : py_class :=
  match x with
  | inl 0 => Cint | inl 1 => Cfloat | inl 2 => Cstr | inl 3 => Cbool
  | inl 4 => Cbytes | inl _ => CNoneType
  | inr h => Cobj h
  end.

Global Instance py_class_countable : Countable py_class.
Proof. by apply (inj_countable' py_class_code py_class_of_code); intros []. Defined.

(** An ordered mapping from field name to declared type (a [dict]). *)
Definition field_dict := list (string * py_type).

(** What the source reads from a class object. *)
Record class_obj : Type := ClassObj {
  cls_name : string;                       (* __name__ *)
  cls_module : string;                     (* __module__ *)
  cls_metaclass : string;                  (* __class__.__name__ *)
  cls_pydantic : bool;                     (* issubclass(cls, BaseModel) *)
  cls_type_hints : field_dict;
    (* get_type_hints(cls), every forward reference resolved *)
  cls_dataclass_fields : option field_dict;    (* dataclasses.fields(cls), when a dataclass *)
  cls_attrs_fields : option field_dict;        (* attr.fields(cls), when attr.has(cls) *)
  cls_annotations : field_dict;                (* cls.__annotations__ *)
  cls_members : field_dict
    (* [(name, type(value))] over [inspect.getmembers(cls, not routine)] *)
}.

(** The class table: the class object behind each handle. *)
Definition world := handle -> class_obj.

Definition builtin_class (name : string) : class_obj :=
  ClassObj name "builtins" "type" false [] None None [] [].

Section Classifier.

Variable w : world.

(** The class object of any class. *)
Definition class_of (c : py_class) : class_obj :=
  match c with
  | Cint => builtin_class "int"
  | Cfloat => builtin_class "float"
  | Cstr => builtin_class "str"
  | Cbool => builtin_class "bool"
  | Cbytes => builtin_class "bytes"
  | CNoneType => builtin_class "NoneType"
  | Cobj h => w h
  end.

(** [isinstance(cls, type)] *)
Definition isinstance_type (t : py_type) : option py_class :=
  match t with TClass c => Some c | _ => None end.

Definition is_pydantic_model (t : py_type) : bool :=
  match isinstance_type t with
  | Some c => cls_pydantic (class_of c)
  | None => false
  end.

(** [dataclasses.is_dataclass] looks for the fields on [cls] when it is
    a class and on [type(cls)] otherwise; among the objects of [py_type]
    only classes have them. *)
Definition is_dataclass (t : py_type) : bool :=
  match isinstance_type t with
  | Some c => bool_decide (is_Some (cls_dataclass_fields (class_of c)))
  | None => false
  end.

(** [attr.has] looks for the attrs attributes on [cls] and on its
    generic base; among the objects of [py_type] only classes have
    them. *)
Definition is_attrs_class (t : py_type) : bool :=
  match isinstance_type t with
  | Some c => bool_decide (is_Some (cls_attrs_fields (class_of c)))
  | None => false
  end.

Definition is_typed_dict (t : py_type) : bool :=
  match isinstance_type t with
  | Some c => bool_decide (cls_metaclass (class_of c) = "TypedDictMeta")
  | None => false
  end.

Definition is_regular_class (t : py_type) : bool :=
  match isinstance_type t with
  | Some c =>
      bool_decide (cls_module (class_of c) ≠ "builtins")
      && negb (is_pydantic_model t || is_dataclass t
               || is_attrs_class t || is_typed_dict t)
  | None => false
  end.

(** [cls in (int, float, str, bool, bytes, Any)] *)
Definition in_scalars (t : py_type) : bool :=
  match t with
  | Tint | Tfloat | Tstr | Tbool | Tbytes | TAny => true
  | _ => false
  end.

Definition is_model (t : py_type) : bool :=
  if in_scalars t then false
  else is_pydantic_model t || is_dataclass t || is_attrs_class t
       || is_typed_dict t || is_regular_class t.

(** [name.startswith('__') and name.endswith('__')] *)
Definition is_dunder (name : string) : bool :=
  Str.startswith name "__" && Str.endswith name "__".

Definition get_model_fields (model : py_class) : field_dict :=
  let t := TClass model in
  let c := class_of model in
  if is_pydantic_model t then cls_type_hints c
  else if is_dataclass t then default [] (cls_dataclass_fields c)
  else if is_attrs_class t then default [] (cls_attrs_fields c)
  else if is_typed_dict t then cls_annotations c
  else if is_regular_class t then
    filter (fun nv => negb (is_dunder nv.1) = true) (cls_members c)
  else [].

(** ** Type mapper *)

Definition map_scalar_type (py_type : py_type) : string :=
  match py_type with
  | Tint => "int32"
  | Tfloat => "float"
  | Tstr => "string"
  | Tbool => "bool"
  | Tbytes => "bytes"
  | TAny => "string"
  | _ => "string"
  end.

(** [py_type.__name__], read only from class objects. *)
Definition type_name (t : py_type) : string :=
  match t with
  | TClass c => cls_name (class_of c)
  | _ => EmptyString
  end.

Definition map_type (py_type : py_type) : string :=
  if in_scalars py_type then map_scalar_type py_type
  else if is_model py_type then type_name py_type
  else "string".

End Classifier.

(** ** Outcomes of a call *)

Inductive exn : Type :=
  | IndexError      (* [t[0]] on an empty tuple *)
  | ValueError      (* unpacking a tuple of the wrong length *)
  | AttributeError. (* reading an attribute the object does not have *)

(** A call returns, raises, or exceeds the bound put on the call depth. *)
Inductive outcome (A : Type) : Type :=
  | Ok (a : A)
  | Raise (e : exn)
  | Deeper.
Arguments Ok {A} a.
Arguments Raise {A} e.
Arguments Deeper {A}.

Global Instance outcome_ret : MRet outcome := fun A a => Ok a.
Global Instance outcome_bind : MBind outcome := fun A B k m =>
  match m with
  | Ok a => k a
  | Raise e => Raise e
  | Deeper => Deeper
  end.

(** ** The emitter *)

Definition loc := nat.

(** The heap holds the [set] objects; [proto_messages] is the list local
    to one call of [pydantic_models_to_protos]. *)
Record state : Type := State {
  heap : gmap loc (gset py_class);
  proto_messages : list string
}.

(** The form a declared field type takes once the wrappers are looked at. *)
Inductive shape : Type :=
  | Plain (repeated optional : bool) (field_type : py_type)
  | Map (key_type value_type : py_type).

(** [getattr(t, '__origin__', None)] and [t.__args__] *)
Definition get_origin (t : py_type) : option py_origin :=
  match t with TAlias o _ => Some o | TBare o => Some o | _ => None end.
Definition get_args (t : py_type) : outcome (list py_type) :=
  match t with TAlias _ args => Ok args | _ => Raise AttributeError end.

Definition is_NoneType (t : py_type) : bool :=
  match t with TNoneType => true | _ => false end.

(** [key_type in (int, float, str, bool)] *)
Definition in_key_scalars (t : py_type) : bool :=
  match t with
  | Tint | Tfloat | Tstr | Tbool => true
  | _ => false
  end.

(** The [if]/[elif]/[elif] chain at the head of the loop body. *)
Definition field_shape (field_type : py_type) : outcome shape :=
  match get_origin field_type with
  | Some OUnion =>
      args ← get_args field_type;
      if existsb is_NoneType args then
        let args := filter (fun arg => is_NoneType arg = false) args in
        Ok (Plain false true (hd TAny args))
      else Ok (Plain false false field_type)
  | Some OList =>
      args ← get_args field_type;
      match args with
      | [] => Raise IndexError
      | arg :: _ => Ok (Plain true false arg)
      end
  | Some ODict =>
      args ← get_args field_type;
      match (match args with
             | [] => [TAny; TAny]
             | args => args
             end) with
      | [key_type; value_type] => Ok (Map key_type value_type)
      | _ => Raise ValueError
      end
  | _ => Ok (Plain false false field_type)
  end.

(** [f"map<{key_type_name}, {value_type_name}> {field_name} = {idx};"] *)
Definition map_field_line (key_type_name value_type_name field_name : string)
    (idx : nat) : string :=
  "map<" +:+ key_type_name +:+ ", " +:+ value_type_name +:+ "> "
  +:+ field_name +:+ " = " +:+ pretty idx +:+ ";".

(** [f"{field_rule} {field_type_name} {field_name} = {idx};".strip()] *)
Definition plain_field_line (field_rule field_type_name field_name : string)
    (idx : nat) : string :=
  Str.strip (field_rule +:+ " " +:+ field_type_name +:+ " " +:+ field_name
             +:+ " = " +:+ pretty idx +:+ ";").

(** The message text built at the end of [parse_model]. *)
Definition build_message (message_name : string) (fields : list string) : string :=
  fold_left (fun message field => message +:+ "    " +:+ field +:+ ";" +:+ Str.nl)
    fields ("message " +:+ message_name +:+ " {" +:+ Str.nl)
  +:+ "}" +:+ Str.nl.

Section Emitter.

Variable w : world.
Variable visited_models : loc.

Definition visited (st : state) : gset py_class := heap st !!! visited_models.

(** [visited_models.add(model)] *)
Definition visited_add (model : py_class) (st : state) : state :=
  State (<[visited_models := {[model]} ∪ visited st]> (heap st)) (proto_messages st).

(** [proto_messages.append(message)] *)
Definition messages_append (message : string) (st : state) : state :=
  State (heap st) (proto_messages st ++ [message]).

Section Loop.

(** The recursive call of [parse_model], one level deeper. *)
Variable parse_model : state -> py_class -> string -> outcome state.

(** [if is_model(t): parse_model(t, t.__name__); name = t.__name__]
    [else: name = map_type(t)] *)
Definition nested_type_name (st : state) (t : py_type) : outcome (state * string) :=
  if is_model w t then
    st' ← match isinstance_type t with
          | Some c => parse_model st c (type_name w t)
          | None => Ok st
          end;
    Ok (st', type_name w t)
  else Ok (st, map_type w t).

(** One iteration of [for field_name, field_type in type_hints.items()],
    on the locals [fields] and [idx]. *)
Definition field_step (acc : state * list string * nat) (f : string * py_type)
    : outcome (state * list string * nat) :=
  let '(st, fields, idx) := acc in
  let '(field_name, field_type) := f in
  sh ← field_shape field_type;
  match sh with
  | Map key_type value_type =>
      let key_type_name :=
        if in_key_scalars key_type then map_scalar_type key_type else "string" in
      '(st, value_type_name) ← nested_type_name st value_type;
      let field_line :=
        map_field_line key_type_name value_type_name field_name idx in
      Ok (st, (fields ++ [field_line]), idx + 1)
  | Plain repeated _ field_type =>
      '(st, field_type_name) ← nested_type_name st field_type;
      let field_rule := if repeated then "repeated" else EmptyString in
      let field_line :=
        plain_field_line field_rule field_type_name field_name idx in
      Ok (st, (fields ++ [field_line]), idx + 1)
  end.

Fixpoint fields_loop (acc : state * list string * nat) (type_hints : field_dict)
    : outcome (state * list string * nat) :=
  match type_hints with
  | [] => Ok acc
  | f :: rest => acc' ← field_step acc f; fields_loop acc' rest
  end.

End Loop.

(** [parse_model]; [depth] bounds the nesting of its calls. *)
Fixpoint parse_model (depth : nat) (st : state) (model : py_class)
    (message_name : string) : outcome state :=
  match depth with
  | 0 => Deeper
  | S depth' =>
      if decide (model ∈ visited st) then Ok st
      else
        let st := visited_add model st in
        let type_hints := get_model_fields w model in
        '(st, fields, _) ← fields_loop (parse_model depth') (st, [], 1) type_hints;
        let message := build_message message_name fields in
        Ok (messages_append message st)
  end.

(** [for model in models: parse_model(model, model.__name__)] *)
Fixpoint models_loop (depth : nat) (st : state) (models : list py_class)
    : outcome state :=
  match models with
  | [] => Ok st
  | model :: rest =>
      st' ← parse_model depth st model (type_name w (TClass model));
      models_loop depth st' rest
  end.

End Emitter.

(** ** The orchestrator *)

(** Truth value of the argument [already_visited]: [None] and the empty
    set are false. *)
Definition truthy (h : gmap loc (gset py_class)) (already_visited : option loc) : bool :=
  match already_visited with
  | Some l => match h !! l with
              | Some s => bool_decide (s ≠ ∅)
              | None => false
              end
  | None => false
  end.

(** [already_visited or set()]: the caller's object, or a new empty set. *)
Definition or_new_set (h : gmap loc (gset py_class)) (already_visited : option loc)
    : loc * gmap loc (gset py_class) :=
  match already_visited with
  | Some l => if truthy h already_visited then (l, h)
              else let l' := fresh (dom h) in (l', <[l' := ∅]> h)
  | None => let l' := fresh (dom h) in (l', <[l' := ∅]> h)
  end.

(** Returns the schema text and the heap the caller is left with. *)
Definition pydantic_models_to_protos (depth : nat) (w : world)
    (h : gmap loc (gset py_class)) (models : list py_class)
    (already_visited : option loc)
    : outcome (string * gmap loc (gset py_class)) :=
  let '(visited_models, h) := or_new_set h already_visited in
  st ← models_loop w visited_models depth (State h []) models;
  let proto_schema := Str.join Str.nl (reverse (proto_messages st)) in
  Ok (proto_schema, heap st).

(** The schema text alone. *)
Definition schema_of (r : outcome (string * gmap loc (gset py_class))) : outcome string :=
  match r with
  | Ok (proto_schema, _) => Ok proto_schema
  | Raise e => Raise e
  | Deeper => Deeper
  end.

(** ** What a completed call has written *)

Section Static.

Variable w : world.

(** The type a field is left with once its wrappers are removed. *)
Definition shape_target (sh : shape) : py_type :=
  match sh with
  | Plain _ _ field_type => field_type
  | Map _ value_type => value_type
  end.

(** The class [parse_model] is called on while a field is processed. *)
Definition nested_model (field_type : py_type) : option py_class :=
  match field_shape field_type with
  | Ok sh =>
      if is_model w (shape_target sh) then isinstance_type (shape_target sh)
      else None
  | _ => None
  end.

(** The line of a field of a given shape, when it is numbered [idx]. *)
Definition render_line (sh : shape) (field_name : string) (idx : nat) : string :=
  match sh with
  | Map key_type value_type =>
      map_field_line
        (if in_key_scalars key_type then map_scalar_type key_type else "string")
        (map_type w value_type) field_name idx
  | Plain repeated _ field_type =>
      plain_field_line (if repeated then "repeated" else EmptyString)
        (map_type w field_type) field_name idx
  end.

Definition field_line (idx : nat) (f : string * py_type) : string :=
  match field_shape f.2 with
  | Ok sh => render_line sh f.1 idx
  | _ => EmptyString
  end.

Definition model_lines (c : py_class) : list string :=
  imap (fun i f => field_line (S i) f) (get_model_fields w c).

(** The message of a class emitted under its own name. *)
Definition message_of (c : py_class) : string :=
  build_message (type_name w (TClass c)) (model_lines c).

(** A message whose lines are those of the fields of a class, the line at
    position [k] carrying the index [k + 1]. *)
Definition numbered (message : string) : Prop :=
  exists c lines,
    message = build_message (cls_name (class_of w c)) lines /\
    length lines = length (get_model_fields w c) /\
    forall k f, get_model_fields w c !! k = Some f ->
      lines !! k = Some (field_line (S k) f) /\
      exists pre, field_line (S k) f = pre +:+ "= " +:+ pretty (S k) +:+ ";".

Definition shape_defined (f : string * py_type) : bool :=
  match field_shape f.2 with Ok _ => true | _ => false end.

(** Every class with a handle below [N] refers, through its fields, only
    to classes with a handle below [N]: the type graph is finite. *)
Definition closed_below (N : nat) : bool :=
  forallb (fun h =>
    forallb (fun f : string * py_type =>
               match nested_model f.2 with
               | Some (Cobj h') => Nat.ltb h' N
               | _ => true
               end)
            (get_model_fields w (Cobj h)))
    (seq 0 N).

(** No list alias without arguments and no dict alias with one or with
    more than two arguments among the fields of the classes below [N]. *)
Definition aliases_complete (N : nat) : bool :=
  forallb (fun h => forallb shape_defined (get_model_fields w (Cobj h))) (seq 0 N).

(** The classes a call may be given: built-in ones and those below [N]. *)
Definition declared (N : nat) (c : py_class) : bool :=
  match c with
  | Cobj a => Nat.ltb a N
  | _ => true
  end.

(** The classes below [N] not yet in a visited set. *)
Definition pending (N : nat) (V : gset py_class) : nat :=
  length (filter (fun h => Cobj h ∉ V) (seq 0 N)).

End Static.

(** ** Example declarations *)

Module Examples.

(** [class name(BaseModel)] with the given annotations. *)
Definition pydantic_class (name : string) (hints : field_dict) : class_obj :=
  ClassObj name "__main__" "ModelMetaclass" true hints None None hints [].

(** [Optional[t]] and [List[t]], [Dict[k, v]] *)
Definition Optional (t : py_type) : py_type := TAlias OUnion [t; TNoneType].
Definition List (t : py_type) : py_type := TAlias OList [t].
Definition Dict (k v : py_type) : py_type := TAlias ODict [k; v].

(** [class Point(BaseModel): x: int; y: int] *)
Definition Point : class_obj :=
  pydantic_class "Point" [("x", Tint); ("y", Tint)].
Definition point_world : world := fun _ => Point.

(** [class Node(BaseModel): value: int; children: Optional[List[Node]]] *)
Definition Node : class_obj :=
  pydantic_class "Node"
    [("value", Tint); ("children", Optional (List (TClass (Cobj 0))))].
Definition node_world : world := fun _ => Node.

(** [class Tree(BaseModel): value: int; children: List[Tree]] *)
Definition Tree : class_obj :=
  pydantic_class "Tree" [("value", Tint); ("children", List (TClass (Cobj 0)))].
Definition tree_world : world := fun _ => Tree.

(** [class Box(BaseModel): items: Dict[str, Item]] and
    [class Item(BaseModel): name: str] *)
Definition Box : class_obj :=
  pydantic_class "Box" [("items", Dict Tstr (TClass (Cobj 1)))].
Definition Item : class_obj := pydantic_class "Item" [("name", Tstr)].
Definition box_world : world :=
  fun h => match h with 0 => Box | _ => Item end.

(** [class Blobs(BaseModel): index: Dict[bytes, int]] *)
Definition Blobs : class_obj :=
  pydantic_class "Blobs" [("index", Dict Tbytes Tint)].
Definition blobs_world : world := fun _ => Blobs.

(** [class Registry(BaseModel): entries: Dict[str, Registry]] *)
Definition Registry : class_obj :=
  pydantic_class "Registry" [("entries", Dict Tstr (TClass (Cobj 0)))].
Definition registry_world : world := fun _ => Registry.

(** [class Outer(BaseModel): inner: Optional[List[Inner]]] and
    [class Inner(BaseModel): name: str] *)
Definition Outer : class_obj :=
  pydantic_class "Outer" [("inner", Optional (List (TClass (Cobj 1))))].
Definition Inner : class_obj := pydantic_class "Inner" [("name", Tstr)].
Definition nesting_world : world :=
  fun h => match h with 0 => Outer | _ => Inner end.

(** [@dataclass class name] with the given fields. *)
Definition dataclass_class (name : string) (fs : field_dict) : class_obj :=
  ClassObj name "__main__" "type" false fs (Some fs) None fs [].

(** [@dataclass class Tags: tags: list[()]], a list alias without
    arguments. *)
Definition Tags : class_obj :=
  dataclass_class "Tags" [("tags", TAlias OList [])].
Definition tags_world : world := fun _ => Tags.

(** [@dataclass class Pairs: pairs: dict[int]], a dict alias with one
    argument. *)
Definition Pairs : class_obj :=
  dataclass_class "Pairs" [("pairs", TAlias ODict [Tint])].
Definition pairs_world : world := fun _ => Pairs.

End Examples.

(** ** The effect of completed calls *)

Section Effects.

Variable w : world.
Variable visited_models : loc.

(** From [st] to [st'] the classes [cs] were emitted, in that order: their
    messages were appended and they were added to the visited set. *)
Record emits (st st' : state) (cs : list py_class) : Prop := Emits {
  emits_messages :
    proto_messages st' = (proto_messages st ++ (message_of w <$> cs));
  emits_nodup : NoDup cs;
  emits_new : forall c, c ∈ cs -> c ∉ visited visited_models st;
  emits_visited :
    visited visited_models st' = visited visited_models st ∪ list_to_set cs;
  emits_frame : forall l, l ≠ visited_models -> heap st' !! l = heap st !! l;
  emits_alloc :
    is_Some (heap st !! visited_models) -> is_Some (heap st' !! visited_models);
  emits_shapes :
    forall c f, c ∈ cs -> f ∈ get_model_fields w c -> shape_defined f = true
}.

(** What the loop over the fields relies on from the calls it makes. *)
Definition emitter_ok (rec : state -> py_class -> string -> outcome state) : Prop :=
  forall st c st',
    rec st c (type_name w (TClass c)) = Ok st' ->
    if decide (c ∈ visited visited_models st) then st' = st
    else exists cs,
      emits st st' (cs ++ [c]) /\
      forall f c', f ∈ get_model_fields w c -> nested_model w f.2 = Some c' ->
                   c' ∈ visited visited_models st'.

(** A field of a class below [N] whose wrappers raise [e]. *)
Definition raising_field (N : nat) (e : exn) : Prop :=
  exists h f, h < N /\ f ∈ get_model_fields w (Cobj h) /\ field_shape f.2 = Raise e.

(** A call that returns, or raises what a field of a class raises. *)
Definition settled {A : Type} (N : nat) (r : outcome A) : Prop :=
  match r with
  | Ok _ => True
  | Raise e => raising_field N e
  | Deeper => False
  end.

End Effects.

(** ** The type graph *)

Section Graph.

Variable w : world.

(** [parse_model] is called on [c'] while a field of [c] is processed. *)
Definition refers_to (c c' : py_class) : Prop :=
  exists f, f ∈ get_model_fields w c /\ nested_model w f.2 = Some c'.

(** The classes reached from the requested ones along such calls. *)
Definition reachable (models : list py_class) (c : py_class) : Prop :=
  exists m, m ∈ models /\ rtc refers_to m c.

End Graph.

(** The same state with messages put in front of the accumulator. *)
Definition prepend_messages (pre : list string) (st : state) : state :=
  State (heap st) (pre ++ proto_messages st).

Definition outcome_map {A B : Type} (f : A -> B) (r : outcome A) : outcome B :=
  match r with
  | Ok a => Ok (f a)
  | Raise e => Raise e
  | Deeper => Deeper
  end.

(** * Properties *)

(** ** Strings *)

Module StrFacts.
Import Str.

Lemma app_nil_l (s : string) : EmptyString +:+ s = s.
Proof. reflexivity. Qed.

Lemma app_cons (c : ascii) (s t : string) :
  String c s +:+ t = String c (s +:+ t).
Proof. reflexivity. Qed.

Lemma app_assoc (s t u : string) : (s +:+ t) +:+ u = s +:+ (t +:+ u).
Proof.
  induction s as [|c s IH]; [reflexivity|].
  rewrite !app_cons. by rewrite IH.
Qed.

Lemma rstrip_app_keep (s t : string) :
  rstrip t ≠ EmptyString -> rstrip (s +:+ t) = s +:+ rstrip t.
Proof.
  intros Ht. induction s as [|c s IH]; [reflexivity|].
  rewrite !app_cons. cbn [rstrip]. rewrite IH.
  destruct (s +:+ rstrip t) eqn:E; [|reflexivity].
  destruct s; [|discriminate]. by rewrite app_nil_l in E.
Qed.

(** A string that ends with a character that is not white space is left
    alone by [rstrip]. *)
Lemma rstrip_ends (s : string) (c : ascii) :
  is_space c = false -> rstrip (s +:+ String c EmptyString) = s +:+ String c EmptyString.
Proof.
  intros Hc. rewrite rstrip_app_keep; cbn [rstrip]; by rewrite Hc.
Qed.

(** [lstrip] removes a part of what comes before the first character
    that is not white space. *)
Lemma lstrip_app_keep (s : string) (c : ascii) (t : string) :
  is_space c = false ->
  exists pre, lstrip (s +:+ String c t) = pre +:+ String c t.
Proof.
  intros Hc. induction s as [|a s [pre IH]].
  - exists EmptyString. rewrite !app_nil_l. cbn [lstrip]. by rewrite Hc.
  - rewrite app_cons. cbn [lstrip]. destruct (is_space a).
    + by exists pre.
    + exists (String a s). by rewrite app_cons.
Qed.

Lemma strip_keeps_tail (s : string) (c : ascii) (t : string) (z : ascii) :
  is_space c = false -> is_space z = false ->
  exists pre,
    strip (s +:+ String c (t +:+ String z EmptyString))
    = pre +:+ String c (t +:+ String z EmptyString).
Proof.
  intros Hc Hz. unfold strip.
  replace (s +:+ String c (t +:+ String z EmptyString))
    with ((s +:+ String c t) +:+ String z EmptyString)
    by (by rewrite app_assoc, app_cons).
  rewrite rstrip_ends by done.
  rewrite app_assoc, app_cons. by apply lstrip_app_keep.
Qed.

Lemma join_singleton (sep x : string) : join sep [x] = x.
Proof. reflexivity. Qed.

Lemma join_cons (sep x y : string) (l : list string) :
  join sep (x :: y :: l) = x +:+ sep +:+ join sep (y :: l).
Proof. reflexivity. Qed.

End StrFacts.

(** ** Field lines *)

Section Lines.

Variable w : world.

(** Every rendered line ends with its index and one semicolon. *)
Lemma plain_field_line_index (rule type_name field_name : string) (idx : nat) :
  exists pre,
    plain_field_line rule type_name field_name idx
    = pre +:+ "= " +:+ pretty idx +:+ ";".
Proof.
  unfold plain_field_line.
  destruct (StrFacts.strip_keeps_tail
              (rule +:+ " " +:+ type_name +:+ " " +:+ field_name +:+ " ")
              "=" (" " +:+ pretty idx) ";" eq_refl eq_refl) as [pre Hpre].
  exists pre. etrans; [|etrans; [exact Hpre|]].
  - f_equal. by rewrite !StrFacts.app_assoc.
  - f_equal.
Qed.

Lemma map_field_line_index (key_name value_name field_name : string) (idx : nat) :
  exists pre,
    map_field_line key_name value_name field_name idx
    = pre +:+ "= " +:+ pretty idx +:+ ";".
Proof.
  unfold map_field_line.
  exists ("map<" +:+ key_name +:+ ", " +:+ value_name +:+ "> " +:+ field_name +:+ " ").
  by rewrite !StrFacts.app_assoc.
Qed.

Lemma render_line_index (sh : shape) (field_name : string) (idx : nat) :
  exists pre, render_line w sh field_name idx = pre +:+ "= " +:+ pretty idx +:+ ";".
Proof.
  destruct sh as [repeated optional t|k v]; cbn [render_line].
  - apply plain_field_line_index.
  - apply map_field_line_index.
Qed.

Lemma field_line_index (idx : nat) (f : string * py_type) :
  shape_defined f = true ->
  exists pre, field_line w idx f = pre +:+ "= " +:+ pretty idx +:+ ";".
Proof.
  unfold shape_defined, field_line. destruct (field_shape f.2); try done.
  intros _. apply render_line_index.
Qed.

(** The text of a message, line by line. *)
Lemma build_message_text (message_name : string) (lines : list string) :
  build_message message_name lines
  = "message " +:+ message_name +:+ " {" +:+ Str.nl
    +:+ foldr (fun line rest => "    " +:+ line +:+ ";" +:+ Str.nl +:+ rest)
          ("}" +:+ Str.nl) lines.
Proof.
  transitivity
    (("message " +:+ message_name +:+ " {" +:+ Str.nl)
     +:+ foldr (fun line rest => "    " +:+ line +:+ ";" +:+ Str.nl +:+ rest)
           ("}" +:+ Str.nl) lines); [|by rewrite !StrFacts.app_assoc].
  unfold build_message.
  generalize ("message " +:+ message_name +:+ " {" +:+ Str.nl).
  induction lines as [|line lines IH]; intros header; cbn [fold_left foldr]; [done|].
  rewrite IH. by rewrite !StrFacts.app_assoc.
Qed.

(** A model is never one of the scalars, so it is mapped to its name. *)
Lemma map_type_model (t : py_type) :
  is_model w t = true -> map_type w t = type_name w t.
Proof.
  intros Hm. unfold map_type. rewrite Hm.
  unfold is_model in Hm. by destruct (in_scalars t).
Qed.

Lemma is_model_class (t : py_type) :
  is_model w t = true -> exists h, t = TClass (Cobj h).
Proof.
  destruct t as [[]| | | |]; try done; eauto.
Qed.

Lemma nested_model_handle (t : py_type) (c : py_class) :
  nested_model w t = Some c -> exists h, c = Cobj h.
Proof.
  unfold nested_model. destruct (field_shape t) as [sh| |]; try done.
  destruct (is_model w (shape_target sh)) eqn:Hm; [|done].
  destruct (is_model_class _ Hm) as [h ->]. intros [= <-]. eauto.
Qed.

End Lines.

(** ** The visited set and the accumulator *)

Section EmitterFacts.

Variable w : world.
Variable vm : loc.

Lemma visited_visited_add (m : py_class) (st : state) :
  visited vm (visited_add vm m st) = {[m]} ∪ visited vm st.
Proof. unfold visited, visited_add; simpl. by rewrite lookup_total_insert_eq. Qed.

Lemma visited_messages_append (msg : string) (st : state) :
  visited vm (messages_append msg st) = visited vm st.
Proof. reflexivity. Qed.

Lemma emits_refl (st : state) : emits w vm st st [].
Proof.
  split; simpl; try done.
  - by rewrite app_nil_r.
  - constructor.
  - set_solver.
  - set_solver.
  - set_solver.
Qed.

Lemma emits_trans (st st' st'' : state) (cs cs' : list py_class) :
  emits w vm st st' cs -> emits w vm st' st'' cs' ->
  emits w vm st st'' (cs ++ cs').
Proof.
  intros [M1 D1 N1 V1 F1 A1 S1] [M2 D2 N2 V2 F2 A2 S2]. split.
  - by rewrite M2, M1, fmap_app, app_assoc.
  - apply NoDup_app. split_and!; [done| |done].
    intros c Hc Hc'. apply (N2 c Hc'). rewrite V1. set_solver.
  - intros c [Hc|Hc]%elem_of_app; [by apply N1|].
    intros Hv. apply (N2 c Hc). rewrite V1. set_solver.
  - rewrite V2, V1, list_to_set_app_L. set_solver.
  - intros l Hl. by rewrite F2, F1.
  - auto.
  - intros c f [Hc|Hc]%elem_of_app; eauto.
Qed.

(** The body of [parse_model] around the loop: mark first, append last. *)
Lemma emits_mark_append (st st1 : state) (m : py_class) (cs : list py_class) :
  m ∉ visited vm st ->
  emits w vm (visited_add vm m st) st1 cs ->
  (forall f, f ∈ get_model_fields w m -> shape_defined f = true) ->
  emits w vm st (messages_append (message_of w m) st1) (cs ++ [m]).
Proof.
  intros Hm [M1 D1 N1 V1 F1 A1 S1] Hsh.
  assert (Hnew : forall c, c ∈ cs -> c ≠ m /\ c ∉ visited vm st).
  { intros c Hc. specialize (N1 c Hc). rewrite visited_visited_add in N1.
    set_solver. }
  split.
  - simpl. rewrite M1. simpl. by rewrite fmap_app, app_assoc.
  - apply NoDup_app. split_and!; [done| |apply NoDup_singleton].
    intros c Hc ->%list_elem_of_singleton. by destruct (Hnew m Hc).
  - intros c [Hc | ->%list_elem_of_singleton]%elem_of_app; [|done].
    by apply Hnew.
  - rewrite visited_messages_append, V1, visited_visited_add, list_to_set_app_L.
    set_solver.
  - intros l Hl. simpl. rewrite F1 by done. simpl. by rewrite lookup_insert_ne.
  - intros _. simpl. apply A1. simpl. rewrite lookup_insert_eq. eauto.
  - intros c f [Hc | ->%list_elem_of_singleton]%elem_of_app; eauto.
Qed.

Lemma emitter_ok_emits rec st c st' :
  emitter_ok w vm rec ->
  rec st c (type_name w (TClass c)) = Ok st' ->
  exists cs, emits w vm st st' cs /\ c ∈ visited vm st'.
Proof.
  intros Hrec Hcall. specialize (Hrec _ _ _ Hcall).
  destruct (decide (c ∈ visited vm st)) as [Hin|Hout].
  - subst st'. exists []. split; [apply emits_refl|done].
  - destruct Hrec as (cs & He & _). exists (cs ++ [c]). split; [done|].
    rewrite (emits_visited _ _ _ _ _ He), list_to_set_app_L. set_solver.
Qed.

End EmitterFacts.

(** ** The loop over the fields *)

Section LoopFacts.

Variable w : world.
Variable vm : loc.
Variable rec : state -> py_class -> string -> outcome state.
Hypothesis rec_ok : emitter_ok w vm rec.

Lemma nested_type_name_ok (st st' : state) (t : py_type) (name : string) :
  nested_type_name w rec st t = Ok (st', name) ->
  name = map_type w t /\
  exists cs, emits w vm st st' cs /\
    forall c, is_model w t = true -> isinstance_type t = Some c ->
              c ∈ visited vm st'.
Proof.
  unfold nested_type_name. destruct (is_model w t) eqn:Hm.
  - destruct (is_model_class w t Hm) as [h ->]. cbn [isinstance_type].
    destruct (rec st (Cobj h) _) as [st1| |] eqn:Hcall; try done.
    intros [= <- <-]. split; [by rewrite map_type_model|].
    destruct (emitter_ok_emits w vm rec _ _ _ rec_ok Hcall) as (cs & He & Hin).
    exists cs. split; [done|]. by intros c _ [= <-].
  - intros [= <- <-]. split; [done|]. exists []. split; [apply emits_refl|done].
Qed.

Lemma field_step_ok (st st' : state) (fs fs' : list string) (idx idx' : nat)
    (f : string * py_type) :
  field_step w rec (st, fs, idx) f = Ok (st', fs', idx') ->
  fs' = fs ++ [field_line w idx f] /\ idx' = idx + 1 /\
  shape_defined f = true /\
  exists cs, emits w vm st st' cs /\
    forall c, nested_model w f.2 = Some c -> c ∈ visited vm st'.
Proof.
  destruct f as [field_name field_type].
  unfold field_step, field_line, shape_defined, nested_model. cbn [fst snd].
  destruct (field_shape field_type) as [sh| |]; try done.
  cbn [mbind outcome_bind].
  destruct sh as [repeated optional t|k v]; cbn [shape_target render_line].
  - destruct (nested_type_name w rec st t) as [[st1 name]| |] eqn:Hn; try done.
    cbn [mbind outcome_bind]. intros [= <- <- <-].
    destruct (nested_type_name_ok _ _ _ _ Hn) as (-> & cs & He & Hin).
    split_and!; try done. exists cs. split; [done|].
    intros c. destruct (is_model w t) eqn:Hm; [|done]. by apply Hin.
  - destruct (nested_type_name w rec st v) as [[st1 name]| |] eqn:Hn; try done.
    cbn [mbind outcome_bind]. intros [= <- <- <-].
    destruct (nested_type_name_ok _ _ _ _ Hn) as (-> & cs & He & Hin).
    split_and!; try done. exists cs. split; [done|].
    intros c. destruct (is_model w v) eqn:Hm; [|done]. by apply Hin.
Qed.

(** The loop numbers the lines it appends from [idx] on, one by one. *)
Lemma fields_loop_ok (l : field_dict) :
  forall (st st' : state) (fs fs' : list string) (idx idx' : nat),
  fields_loop w rec (st, fs, idx) l = Ok (st', fs', idx') ->
  fs' = fs ++ imap (fun i f => field_line w (idx + i) f) l /\
  idx' = idx + length l /\
  (forall f, f ∈ l -> shape_defined f = true) /\
  exists cs, emits w vm st st' cs /\
    forall f c, f ∈ l -> nested_model w f.2 = Some c -> c ∈ visited vm st'.
Proof.
  induction l as [|f l IH]; intros st st' fs fs' idx idx'; cbn [fields_loop].
  - intros [= <- <- <-]. rewrite app_nil_r. split; [done|]. split; [simpl; lia|].
    split; [by intros f ?%elem_of_nil|].
    exists []. split; [apply emits_refl|]. by intros f c ?%elem_of_nil.
  - destruct (field_step w rec (st, fs, idx) f) as [[[st1 fs1] idx1]| |] eqn:Hs;
      try done.
    cbn [mbind outcome_bind]. intros Hl.
    destruct (field_step_ok _ _ _ _ _ _ _ Hs) as (-> & -> & Hsh & cs1 & He1 & Hin1).
    destruct (IH _ _ _ _ _ _ Hl) as (-> & -> & Hshs & cs2 & He2 & Hin2).
    split_and!.
    + rewrite imap_cons, <- app_assoc. cbn [app]. rewrite Nat.add_0_r.
      do 2 f_equal. apply imap_ext. intros i x _. simpl. f_equal. lia.
    + simpl. lia.
    + intros g [->|Hg]%elem_of_cons; auto.
    + exists (cs1 ++ cs2). split; [by eapply emits_trans|].
      intros g c [->|Hg]%elem_of_cons Hc; [|by eauto].
      rewrite (emits_visited _ _ _ _ _ He2). apply elem_of_union_l. by apply Hin1.
Qed.

End LoopFacts.

(** ** [parse_model] *)

Section ParseModelFacts.

Variable w : world.
Variable vm : loc.

Lemma parse_model_ok (depth : nat) : emitter_ok w vm (parse_model w vm depth).
Proof.
  induction depth as [|depth IH]; intros st c st'; cbn [parse_model]; [done|].
  destruct (decide (c ∈ visited vm st)) as [Hin|Hout]; [by intros [= <-]|].
  destruct (fields_loop _ _ _ _) as [[[st1 fs1] idx1]| |] eqn:Hl; try done.
  cbn [mbind outcome_bind]. intros [= <-].
  destruct (fields_loop_ok w vm _ IH _ _ _ _ _ _ _ Hl)
    as (-> & _ & Hsh & cs & He & Hin).
  exists cs. split; [by apply emits_mark_append|].
  intros f c' Hf Hc'. rewrite visited_messages_append. eauto.
Qed.

(** A class in the visited set is left alone. *)
Lemma parse_model_visited (depth : nat) (st : state) (model : py_class)
    (message_name : string) :
  model ∈ visited vm st ->
  parse_model w vm (S depth) st model message_name = Ok st.
Proof. intros Hin. cbn [parse_model]. by rewrite decide_True. Qed.

Lemma models_loop_emits (depth : nat) (models : list py_class) :
  forall st st', models_loop w vm depth st models = Ok st' ->
  exists cs, emits w vm st st' cs /\ forall c, c ∈ models -> c ∈ visited vm st'.
Proof.
  induction models as [|m models IH]; intros st st'; cbn [models_loop].
  - intros [= <-]. exists []. split; [apply emits_refl|]. by intros c ?%elem_of_nil.
  - destruct (parse_model w vm depth st m _) as [st1| |] eqn:Hp; try done.
    cbn [mbind outcome_bind]. intros Hl.
    destruct (emitter_ok_emits w vm _ _ _ _ (parse_model_ok depth) Hp)
      as (cs1 & He1 & Hin1).
    destruct (IH _ _ Hl) as (cs2 & He2 & Hin2).
    exists (cs1 ++ cs2). split; [by eapply emits_trans|].
    intros c [->|Hc]%elem_of_cons; [|by auto].
    rewrite (emits_visited _ _ _ _ _ He2). by apply elem_of_union_l.
Qed.

End ParseModelFacts.

(** ** Termination *)

Section Pending.

Lemma filter_length_le (P Q : nat -> Prop)
    `{!forall x, Decision (P x)} `{!forall x, Decision (Q x)} (l : list nat) :
  (forall x, P x -> Q x) -> length (filter P l) <= length (filter Q l).
Proof.
  intros HPQ. induction l as [|x l IH]; [done|].
  rewrite !filter_cons. destruct (decide (P x)) as [HP|HP].
  - rewrite decide_True by auto. simpl. lia.
  - destruct (decide (Q x)); simpl; lia.
Qed.

Lemma filter_length_lt (P Q : nat -> Prop)
    `{!forall x, Decision (P x)} `{!forall x, Decision (Q x)} (l : list nat) (a : nat) :
  (forall x, P x -> Q x) -> a ∈ l -> Q a -> ~ P a ->
  length (filter P l) < length (filter Q l).
Proof.
  intros HPQ Ha HQ HP. induction l as [|x l IH]; [by apply elem_of_nil in Ha|].
  rewrite !filter_cons. apply elem_of_cons in Ha as [<-|Ha].
  - rewrite decide_False, decide_True by done. simpl.
    pose proof (filter_length_le P Q l HPQ). lia.
  - specialize (IH Ha). destruct (decide (P x)) as [HPx|HPx].
    + rewrite decide_True by auto. simpl. lia.
    + destruct (decide (Q x)); simpl; lia.
Qed.

Lemma pending_mono (N : nat) (V V' : gset py_class) :
  V ⊆ V' -> pending N V' <= pending N V.
Proof. intros HV. apply filter_length_le. set_solver. Qed.

Lemma pending_mark (N h : nat) (V V' : gset py_class) :
  h < N -> Cobj h ∉ V -> {[Cobj h]} ∪ V ⊆ V' -> pending N V' < pending N V.
Proof.
  intros Hh Hout HV. apply (filter_length_lt _ _ _ h).
  - set_solver.
  - apply elem_of_seq. lia.
  - done.
  - set_solver.
Qed.

Lemma pending_le (N : nat) (V : gset py_class) : pending N V <= N.
Proof.
  unfold pending. etrans; [apply length_filter|]. by rewrite length_seq.
Qed.

End Pending.

Section Settled.

Variable w : world.
Variable vm : loc.
Variable N : nat.

Lemma closed_below_spec (h h' : nat) (f : string * py_type) :
  closed_below w N = true -> h < N ->
  f ∈ get_model_fields w (Cobj h) -> nested_model w f.2 = Some (Cobj h') ->
  h' < N.
Proof.
  unfold closed_below. rewrite forallb_forall. intros Hall Hh Hf Hn.
  specialize (Hall h). rewrite forallb_forall in Hall.
  assert (Hin : In h (seq 0 N)) by (apply in_seq; lia).
  specialize (Hall Hin f (proj1 (list_elem_of_In _ _) Hf)).
  rewrite Hn in Hall. by apply Nat.ltb_lt.
Qed.

Lemma aliases_complete_spec (e : exn) :
  aliases_complete w N = true -> ~ raising_field w N e.
Proof.
  unfold aliases_complete. rewrite forallb_forall.
  intros Hall (h & f & Hh & Hf & Hr).
  specialize (Hall h). rewrite forallb_forall in Hall.
  assert (Hin : In h (seq 0 N)) by (apply in_seq; lia).
  specialize (Hall Hin f (proj1 (list_elem_of_In _ _) Hf)).
  unfold shape_defined in Hall. by rewrite Hr in Hall.
Qed.

Lemma field_shape_returns (t : py_type) : field_shape t ≠ Deeper.
Proof.
  unfold field_shape. destruct (get_origin t) as [[]|]; try done;
    destruct (get_args t) as [args| |] eqn:Hargs; cbn [mbind outcome_bind];
    try done; try (by destruct t); repeat case_match; done.
Qed.

Lemma builtin_no_fields (c : py_class) :
  (forall h, c ≠ Cobj h) -> get_model_fields w c = [].
Proof. destruct c; try done. intros H. by destruct (H h). Qed.

Section Loop.

Variable rec : state -> py_class -> string -> outcome state.
Variable V0 : gset py_class.
Hypothesis rec_ok : emitter_ok w vm rec.
Hypothesis rec_settled :
  forall st h name, V0 ⊆ visited vm st -> h < N -> settled w N (rec st (Cobj h) name).

Lemma fields_loop_settled (l : field_dict) :
  forall (st : state) (fs : list string) (idx : nat),
  V0 ⊆ visited vm st ->
  (forall f h, f ∈ l -> nested_model w f.2 = Some (Cobj h) -> h < N) ->
  (forall f e, f ∈ l -> field_shape f.2 = Raise e -> raising_field w N e) ->
  settled w N (fields_loop w rec (st, fs, idx) l).
Proof.
  induction l as [|f l IH]; intros st fs idx HV Hcl Hr; cbn [fields_loop]; [done|].
  destruct (field_step w rec (st, fs, idx) f) as [[[st1 fs1] idx1]|e|] eqn:Hs;
    cbn [mbind outcome_bind].
  - destruct (field_step_ok w vm rec rec_ok _ _ _ _ _ _ _ Hs)
      as (_ & _ & _ & cs & He & _).
    apply IH.
    + rewrite (emits_visited _ _ _ _ _ He). set_solver.
    + intros g h Hg. apply Hcl. by apply elem_of_cons; right.
    + intros g e Hg. apply Hr. by apply elem_of_cons; right.
  - destruct f as [field_name field_type]. unfold field_step in Hs.
    destruct (field_shape field_type) as [sh|e'|] eqn:Hsh; cbn [mbind outcome_bind] in Hs.
    + assert (Hnested : forall t, shape_target sh = t ->
                settled w N (nested_type_name w rec st t)).
      { intros t Ht. unfold nested_type_name.
        destruct (is_model w t) eqn:Hm; [|done].
        destruct (is_model_class w t Hm) as [h ->]. cbn [isinstance_type].
        assert (Hh : h < N).
        { apply (Hcl (field_name, field_type) h); [by apply elem_of_cons; left|].
          unfold nested_model. cbn [snd]. by rewrite Hsh, Ht, Hm. }
        pose proof (rec_settled st h (type_name w (TClass (Cobj h))) HV Hh) as Hset.
        by destruct (rec st (Cobj h) _). }
      destruct sh as [repeated optional t|k v]; cbn [shape_target] in Hnested.
      * specialize (Hnested t eq_refl).
        destruct (nested_type_name w rec st t) as [[st1 name]| |];
          cbn [mbind outcome_bind] in Hs; try done. by injection Hs as <-.
      * specialize (Hnested v eq_refl).
        destruct (nested_type_name w rec st v) as [[st1 name]| |];
          cbn [mbind outcome_bind] in Hs; try done. by injection Hs as <-.
    + injection Hs as <-. apply (Hr (field_name, field_type)); [|done].
      by apply elem_of_cons; left.
    + by destruct (field_shape_returns field_type).
  - destruct f as [field_name field_type]. unfold field_step in Hs.
    destruct (field_shape field_type) as [sh|e'|] eqn:Hsh; cbn [mbind outcome_bind] in Hs.
    + assert (Hnested : forall t, shape_target sh = t ->
                nested_type_name w rec st t ≠ Deeper).
      { intros t Ht. unfold nested_type_name.
        destruct (is_model w t) eqn:Hm; [|done].
        destruct (is_model_class w t Hm) as [h ->]. cbn [isinstance_type].
        assert (Hh : h < N).
        { apply (Hcl (field_name, field_type) h); [by apply elem_of_cons; left|].
          unfold nested_model. cbn [snd]. by rewrite Hsh, Ht, Hm. }
        pose proof (rec_settled st h (type_name w (TClass (Cobj h))) HV Hh) as Hset.
        by destruct (rec st (Cobj h) _). }
      destruct sh as [repeated optional t|k v]; cbn [shape_target] in Hnested.
      * specialize (Hnested t eq_refl).
        by destruct (nested_type_name w rec st t) as [[st1 name]| |].
      * specialize (Hnested v eq_refl).
        by destruct (nested_type_name w rec st v) as [[st1 name]| |].
    + done.
    + by destruct (field_shape_returns field_type).
Qed.

End Loop.

Hypothesis closed : closed_below w N = true.

(** Within a finite type graph, a call nested less deeply than the bound
    allows returns or raises: the bound on the depth is never met. *)
Lemma parse_model_settled (depth : nat) :
  forall (st : state) (model : py_class) (message_name : string),
  (forall h, model = Cobj h -> h < N) ->
  pending N (visited vm st) < depth ->
  settled w N (parse_model w vm depth st model message_name).
Proof.
  induction depth as [|depth IH]; intros st model name Hmodel Hd; [lia|].
  cbn [parse_model]. destruct (decide (model ∈ visited vm st)) as [Hin|Hout]; [done|].
  assert (Hloop : settled w N
            (fields_loop w (parse_model w vm depth)
               (visited_add vm model st, [], 1) (get_model_fields w model))).
  { assert (Hcase : (exists h, model = Cobj h) \/ (forall h, model ≠ Cobj h))
      by (destruct model; eauto).
    destruct Hcase as [[h ->]|Hb].
    - specialize (Hmodel h eq_refl).
      apply (fields_loop_settled _ (visited vm (visited_add vm (Cobj h) st))).
      + apply parse_model_ok.
      + intros st2 h2 name2 HV Hh2. apply IH; [by intros ? [= <-]|].
        rewrite visited_visited_add in HV.
        pose proof (pending_mark N h _ _ Hmodel Hout HV). lia.
      + done.
      + intros f h2 Hf Hn. by eapply closed_below_spec.
      + intros f e Hf Hr. by exists h, f.
    - by rewrite builtin_no_fields. }
  by destruct (fields_loop _ _ _ _) as [[[st1 fs1] idx1]| |].
Qed.

Lemma models_loop_settled (depth : nat) (models : list py_class) :
  forall st : state,
  (forall h, Cobj h ∈ models -> h < N) ->
  pending N (visited vm st) < depth ->
  settled w N (models_loop w vm depth st models).
Proof.
  induction models as [|m models IH]; intros st Hmodels Hd; cbn [models_loop]; [done|].
  assert (Hp : settled w N (parse_model w vm depth st m (type_name w (TClass m)))).
  { apply parse_model_settled; [|done]. intros h ->. apply Hmodels. by left. }
  destruct (parse_model w vm depth st m _) as [st1| |] eqn:Hcall; try done.
  cbn [mbind outcome_bind].
  destruct (emitter_ok_emits w vm _ _ _ _ (parse_model_ok w vm depth) Hcall)
    as (cs & He & _).
  apply IH.
  - intros h Hh. apply Hmodels. by right.
  - assert (visited vm st ⊆ visited vm st1)
      by (rewrite (emits_visited _ _ _ _ _ He); set_solver).
    pose proof (pending_mono N _ _ H). lia.
Qed.

End Settled.

(** ** The orchestrator *)

Section Orchestrator.

Variable w : world.

Lemma or_new_set_shared (h : gmap loc (gset py_class)) (l : loc) (S : gset py_class) :
  h !! l = Some S -> S ≠ ∅ -> or_new_set h (Some l) = (l, h).
Proof.
  intros Hl HS. unfold or_new_set, truthy. rewrite Hl.
  by rewrite bool_decide_true.
Qed.

Lemma or_new_set_discarded (h : gmap loc (gset py_class)) (l : loc) :
  h !! l = Some ∅ ->
  or_new_set h (Some l) = (fresh (dom h), <[fresh (dom h) := ∅]> h).
Proof.
  intros Hl. unfold or_new_set, truthy. rewrite Hl.
  by rewrite bool_decide_false by (by intros H; apply H).
Qed.

Lemma or_new_set_allocated (h h0 : gmap loc (gset py_class))
    (already_visited : option loc) (vm : loc) :
  or_new_set h already_visited = (vm, h0) -> is_Some (h0 !! vm).
Proof.
  unfold or_new_set, truthy. destruct already_visited as [l|].
  - destruct (h !! l) as [S|] eqn:Hl.
    + case_bool_decide; intros [= <- <-]; [by rewrite Hl|].
      rewrite lookup_insert_eq. eauto.
    + intros [= <- <-]. rewrite lookup_insert_eq. eauto.
  - intros [= <- <-]. rewrite lookup_insert_eq. eauto.
Qed.

Lemma generate_returns_inv (depth : nat) (h h' : gmap loc (gset py_class))
    (models : list py_class) (already_visited : option loc) (schema : string) :
  pydantic_models_to_protos depth w h models already_visited = Ok (schema, h') ->
  exists vm h0 st',
    or_new_set h already_visited = (vm, h0) /\
    models_loop w vm depth (State h0 []) models = Ok st' /\
    schema = Str.join Str.nl (reverse (proto_messages st')) /\
    h' = heap st'.
Proof.
  unfold pydantic_models_to_protos.
  destruct (or_new_set h already_visited) as [vm h0].
  destruct (models_loop w vm depth (State h0 []) models) as [st'| |] eqn:Hl;
    cbn [mbind outcome_bind]; try done.
  intros [= <- <-]. by exists vm, h0, st'.
Qed.

(** A call that returns has emitted a duplicate-free list of classes. *)
Lemma generate_emits (depth : nat) (h h' : gmap loc (gset py_class))
    (models : list py_class) (already_visited : option loc) (schema : string) :
  pydantic_models_to_protos depth w h models already_visited = Ok (schema, h') ->
  exists vm h0 cs,
    or_new_set h already_visited = (vm, h0) /\
    emits w vm (State h0 []) (State h' (message_of w <$> cs)) cs /\
    schema = Str.join Str.nl (reverse (message_of w <$> cs)) /\
    forall c, c ∈ models -> c ∈ visited vm (State h' []).
Proof.
  intros (vm & h0 & st' & Hor & Hl & -> & ->)%generate_returns_inv.
  destruct (models_loop_emits w vm _ _ _ _ Hl) as (cs & He & Hin).
  pose proof (emits_messages _ _ _ _ _ He) as HM. simpl in HM.
  exists vm, h0, cs. rewrite <- HM. by destruct st'.
Qed.

Lemma emits_heap (vm : loc) (h0 h' : gmap loc (gset py_class))
    (m m' : list string) (cs : list py_class) :
  is_Some (h0 !! vm) ->
  emits w vm (State h0 m) (State h' m') cs ->
  h' = <[vm := visited vm (State h0 m) ∪ list_to_set cs]> h0.
Proof.
  intros Hsome He. apply map_eq. intros l.
  destruct (decide (l = vm)) as [->|Hne].
  - rewrite lookup_insert_eq.
    destruct (emits_alloc _ _ _ _ _ He Hsome) as [S HS]. simpl in HS.
    pose proof (emits_visited _ _ _ _ _ He) as HV.
    unfold visited at 1 in HV. simpl in HV.
    rewrite (lookup_total_correct _ _ _ HS) in HV. by rewrite HS, HV.
  - rewrite lookup_insert_ne by done. by apply (emits_frame _ _ _ _ _ He).
Qed.

End Orchestrator.

(** ** The type mapper *)

(** C8. The scalar mapper is total with the table int -> int32,
    float -> float, str -> string, bool -> bool, bytes -> bytes,
    Any -> string; a type that is neither one of these scalars nor a
    recognised structured type is mapped to string, and a recognised
    structured type is mapped to its own name. *)
Theorem type_mapper_table (w : world) :
  map_scalar_type Tint = "int32" /\ map_scalar_type Tfloat = "float" /\
  map_scalar_type Tstr = "string" /\ map_scalar_type Tbool = "bool" /\
  map_scalar_type Tbytes = "bytes" /\ map_scalar_type TAny = "string" /\
  (forall t, t ∈ [Tint; Tfloat; Tstr; Tbool; Tbytes; TAny] ->
             map_type w t = map_scalar_type t) /\
  (forall t, t ≠ Tint -> t ≠ Tfloat -> t ≠ Tstr -> t ≠ Tbool -> t ≠ Tbytes ->
             t ≠ TAny ->
     map_scalar_type t = "string" /\
     (is_model w t = false -> map_type w t = "string") /\
     (is_model w t = true ->
      exists c, t = TClass c /\ map_type w t = cls_name (class_of w c))).
Proof.
  split_and!; try reflexivity.
  - intros t Ht. repeat (apply elem_of_cons in Ht as [->|Ht]; [reflexivity|]).
    by apply elem_of_nil in Ht.
  - intros t H1 H2 H3 H4 H5 H6.
    assert (Hs : in_scalars t = false) by (by destruct t as [[]| | | |]).
    split_and!.
    + by destruct t as [[]| | | |].
    + intros Hm. unfold map_type. by rewrite Hs, Hm.
    + intros Hm. destruct (is_model_class w t Hm) as [h ->].
      exists (Cobj h). split; [done|]. by rewrite map_type_model.
Qed.

Lemma type_mapper_table_witness :
  map_type Examples.box_world TOpaque = "string" /\
  exists c, TClass (Cobj 1) = TClass c /\
            map_type Examples.box_world (TClass (Cobj 1))
            = cls_name (class_of Examples.box_world c).
Proof.
  destruct (type_mapper_table Examples.box_world) as (_ & _ & _ & _ & _ & _ & _ & H).
  split.
  - apply (H TOpaque); try discriminate. reflexivity.
  - apply (H (TClass (Cobj 1))); try discriminate. reflexivity.
Defined.

(** ** Seeded visited sets *)

Lemma generate_seeded (w : world) (depth : nat) (h : gmap loc (gset py_class))
    (l : loc) (S : gset py_class) (T : py_class) :
  h !! l = Some S -> T ∈ S ->
  pydantic_models_to_protos (Datatypes.S depth) w h [T] (Some l)
  = Ok (EmptyString, h).
Proof.
  intros Hl HT. unfold pydantic_models_to_protos.
  rewrite (or_new_set_shared h l S) by set_solver.
  cbn [models_loop]. rewrite parse_model_visited; [done|].
  unfold visited. simpl. by rewrite (lookup_total_correct _ _ _ Hl).
Qed.

(** C7. With [T] alone in the set given as [already_visited], the schema
    generated for [[T]] is the empty text: no message is emitted. *)
Theorem seeded_model_is_skipped (w : world) (depth : nat)
    (h : gmap loc (gset py_class)) (l : loc) (T : py_class) :
  pydantic_models_to_protos (S depth) w (<[l := {[T]}]> h) [T] (Some l)
  = Ok (EmptyString, <[l := {[T]}]> h).
Proof.
  apply (generate_seeded w depth _ l {[T]}).
  - apply lookup_insert_eq.
  - by apply elem_of_singleton.
Qed.

(** C10. A non-empty set given as [already_visited] is the very set the
    call marks: afterwards it holds, besides what it held, every class
    emitted during the call. An empty set given as [already_visited] is
    put aside for a new one and is still empty afterwards. *)
Theorem already_visited_aliasing (w : world) (depth : nat)
    (h h' : gmap loc (gset py_class)) (models : list py_class) (l : loc)
    (S : gset py_class) (schema : string) :
  h !! l = Some S ->
  pydantic_models_to_protos depth w h models (Some l) = Ok (schema, h') ->
  exists cs,
    NoDup cs /\
    schema = Str.join Str.nl (reverse (message_of w <$> cs)) /\
    (S ≠ ∅ ->
       h' = <[l := S ∪ list_to_set cs]> h /\
       (forall c, c ∈ cs -> c ∉ S) /\
       (forall c, c ∈ models -> c ∈ S ∪ list_to_set cs)) /\
    (S = ∅ ->
       h' !! l = Some ∅ /\
       exists l', l' ≠ l /\ h !! l' = None /\ h' = <[l' := list_to_set cs]> h).
Proof.
  intros Hl (vm & h0 & cs & Hor & He & -> & Hin)%generate_emits.
  exists cs. split; [apply (emits_nodup _ _ _ _ _ He)|]. split; [done|].
  pose proof (or_new_set_allocated _ _ _ _ Hor) as Hsome.
  pose proof (emits_heap w vm _ _ _ _ _ Hsome He) as Hh'.
  split.
  - intros HS. rewrite (or_new_set_shared h l S) in Hor by done.
    injection Hor as <- <-.
    assert (HV : visited l (State h []) = S).
    { unfold visited. simpl. by rewrite (lookup_total_correct _ _ _ Hl). }
    rewrite HV in Hh'. split; [done|]. split.
    + intros c Hc. rewrite <- HV. by apply (emits_new _ _ _ _ _ He).
    + intros c Hc. specialize (Hin c Hc).
      unfold visited in Hin. simpl in Hin.
      by rewrite Hh', lookup_total_insert_eq in Hin.
  - intros ->. rewrite (or_new_set_discarded h l) in Hor by done.
    injection Hor as <- <-.
    assert (Hfresh : h !! fresh (dom h) = None)
      by (apply not_elem_of_dom, is_fresh).
    assert (Hne : fresh (dom h) ≠ l) by (intros Heq; by rewrite Heq, Hl in Hfresh).
    assert (HV : visited (fresh (dom h)) (State (<[fresh (dom h) := ∅]> h) []) = ∅).
    { unfold visited. simpl. by rewrite lookup_total_insert_eq. }
    rewrite HV, insert_insert_eq, (left_id_L ∅ (∪)) in Hh'.
    split.
    + by rewrite Hh', lookup_insert_ne.
    + by exists (fresh (dom h)).
Qed.

Lemma already_visited_aliasing_witness :
  exists cs,
    NoDup cs /\
    "message Box {" +:+ Str.nl +:+ "    map<string, Item> items = 1;;" +:+ Str.nl
      +:+ "}" +:+ Str.nl
    = Str.join Str.nl (reverse (message_of Examples.box_world <$> cs)) /\
    ({[Cobj 1]} ≠ (∅ : gset py_class) ->
       ({[7 := {[Cobj 1]} ∪ {[Cobj 0]}]} : gmap loc (gset py_class))
       = <[7 := {[Cobj 1]} ∪ list_to_set cs]> {[7 := {[Cobj 1]}]} /\
       (forall c, c ∈ cs -> c ∉ ({[Cobj 1]} : gset py_class)) /\
       (forall c, c ∈ [Cobj 0] -> c ∈ ({[Cobj 1]} : gset py_class) ∪ list_to_set cs)) /\
    ({[Cobj 1]} = (∅ : gset py_class) ->
       ({[7 := {[Cobj 1]} ∪ {[Cobj 0]}]} : gmap loc (gset py_class)) !! 7 = Some ∅ /\
       exists l', l' ≠ 7 /\
         ({[7 := {[Cobj 1]}]} : gmap loc (gset py_class)) !! l' = None /\
         ({[7 := {[Cobj 1]} ∪ {[Cobj 0]}]} : gmap loc (gset py_class))
         = <[l' := list_to_set cs]> {[7 := {[Cobj 1]}]}).
Proof.
  apply (already_visited_aliasing Examples.box_world 2 {[7 := {[Cobj 1]}]}
           _ [Cobj 0] 7 {[Cobj 1]}).
  - reflexivity.
  - vm_compute. reflexivity.
Defined.

(** ** Generated text on the example declarations *)

(** C1. For [Point] with the integer fields [x] and [y] the generated
    schema is the message [Point] with one line per field; the source
    writes each line with two semicolons, [int32 x = 1;;], since the
    field line and the message template each add one. *)
Theorem point_schema (depth : nat) :
  schema_of (pydantic_models_to_protos (S depth) Examples.point_world ∅ [Cobj 0] None)
  = Ok ("message Point {" +:+ Str.nl
        +:+ "    int32 x = 1;;" +:+ Str.nl
        +:+ "    int32 y = 2;;" +:+ Str.nl
        +:+ "}" +:+ Str.nl).
Proof. vm_compute. reflexivity. Qed.

(** C2. For the self-referential [Node] with [value: int] and
    [children: Optional[List[Node]]] a single message is generated; the
    source leaves [List[Node]] as the field type once the optional
    wrapper is removed, so the line for [children] reads
    [string children = 2;;], neither repeated nor naming [Node]. *)
Theorem node_schema (depth : nat) :
  schema_of (pydantic_models_to_protos (S depth) Examples.node_world ∅ [Cobj 0] None)
  = Ok ("message Node {" +:+ Str.nl
        +:+ "    int32 value = 1;;" +:+ Str.nl
        +:+ "    string children = 2;;" +:+ Str.nl
        +:+ "}" +:+ Str.nl).
Proof. vm_compute. reflexivity. Qed.

(** C9. A class with a field annotated by a list alias without arguments
    makes the call raise [IndexError]: no schema text is returned. *)
Theorem tags_schema_raises (depth : nat) :
  schema_of (pydantic_models_to_protos (S depth) Examples.tags_world ∅ [Cobj 0] None)
  = Raise IndexError.
Proof. vm_compute. reflexivity. Qed.

(** A dict alias with a single argument cannot be unpacked into a key and
    a value. *)
Lemma pairs_schema_raises (depth : nat) :
  schema_of (pydantic_models_to_protos (S depth) Examples.pairs_world ∅ [Cobj 0] None)
  = Raise ValueError.
Proof. vm_compute. reflexivity. Qed.

(** ** Map fields *)

(** The claim that a key is always named through the scalar table fails
    on a [bytes] key: the table has [bytes] for it, the line has
    [string]. *)
Lemma bytes_key_is_string :
  schema_of (pydantic_models_to_protos 1 Examples.blobs_world ∅ [Cobj 0] None)
  = Ok ("message Blobs {" +:+ Str.nl
        +:+ "    map<string, int32> index = 1;;" +:+ Str.nl
        +:+ "}" +:+ Str.nl)
  /\ field_step Examples.blobs_world (fun st _ _ => Ok st) (State ∅ [], [], 1)
       ("index", Examples.Dict Tbytes Tint)
     = Ok (State ∅ [], ["map<string, int32> index = 1;"], 2)
  /\ "map<string, int32> index = 1;"
     ≠ map_field_line (map_scalar_type Tbytes) "int32" "index" 1.
Proof. split_and!; [by vm_compute | reflexivity | discriminate]. Qed.

(** The claim fails in two ways. A [bytes] key is not named through the
    scalar table: the table has [bytes] for it, the line has [string].
    And a structured value that is already visited, as the value of a
    map of a class to itself, has no message added before the line is
    appended. *)
Lemma map_field_counterexample :
  (schema_of (pydantic_models_to_protos 1 Examples.blobs_world ∅ [Cobj 0] None)
   = Ok ("message Blobs {" +:+ Str.nl
         +:+ "    map<string, int32> index = 1;;" +:+ Str.nl
         +:+ "}" +:+ Str.nl)
   /\ map_scalar_type Tbytes = "bytes")
  /\
  (field_step Examples.registry_world (parse_model Examples.registry_world 0 1)
     (State {[0 := {[Cobj 0]}]} [], [], 1)
     ("entries", Examples.Dict Tstr (TClass (Cobj 0)))
   = Ok (State {[0 := {[Cobj 0]}]} [], ["map<string, Registry> entries = 1;"], 2)
   /\ is_model Examples.registry_world (TClass (Cobj 0)) = true).
Proof. split_and!; by vm_compute. Qed.

(** C3 (amended). For a field declared [Dict[K, V]]: the key is named
    through the scalar table only when it is [int], [float], [str] or
    [bool], and [string] otherwise, also for [bytes]. When [V] is a
    structured type, [parse_model] is run on [V] under its own name
    before the line is appended: if [V] was not yet visited this adds
    the message of [V] at the end of the accumulator, after the messages
    of what [V] refers to, and if [V] was visited it changes nothing; the
    line names [V]. Otherwise the value is named by the type mapper. The
    line has the form [map<KeyWire, ValueWire> name = idx;] and is the
    only line appended for the field. *)
Theorem map_field_rendering (w : world) (vm : loc) (N depth : nat)
    (st : state) (fields : list string) (idx : nat) (field_name : string)
    (K V : py_type) :
  closed_below w N = true -> aliases_complete w N = true -> N < depth ->
  let key_wire :=
    match K with
    | Tint => "int32" | Tfloat => "float" | Tstr => "string" | Tbool => "bool"
    | _ => "string"
    end in
  (is_model w V = true ->
   exists v, V = TClass (Cobj v) /\
     (v < N ->
      exists st',
        parse_model w vm depth st (Cobj v) (cls_name (w v)) = Ok st' /\
        field_step w (parse_model w vm depth) (st, fields, idx)
          (field_name, TAlias ODict [K; V])
        = Ok (st',
              fields ++ [map_field_line key_wire (cls_name (w v)) field_name idx],
              idx + 1) /\
        Cobj v ∈ visited vm st' /\
        (Cobj v ∈ visited vm st -> st' = st) /\
        (Cobj v ∉ visited vm st ->
         exists nested,
           proto_messages st'
           = proto_messages st ++ nested
             ++ ["message " +:+ cls_name (w v) +:+ " {" +:+ Str.nl
                 +:+ foldr (fun line rest =>
                              "    " +:+ line +:+ ";" +:+ Str.nl +:+ rest)
                       ("}" +:+ Str.nl) (model_lines w (Cobj v))]))) /\
  (is_model w V = false ->
   field_step w (parse_model w vm depth) (st, fields, idx)
     (field_name, TAlias ODict [K; V])
   = Ok (st, fields ++ [map_field_line key_wire (map_type w V) field_name idx],
         idx + 1)) /\
  (forall key_name value_name,
   map_field_line key_name value_name field_name idx
   = "map<" +:+ key_name +:+ ", " +:+ value_name +:+ "> " +:+ field_name
     +:+ " = " +:+ pretty idx +:+ ";").
Proof.
  intros Hcl Hal Hd key_wire.
  assert (Hkey : (if in_key_scalars K then map_scalar_type K else "string") = key_wire)
    by (by destruct K as [[]| | | |]).
  split_and!; [| |done].
  - intros Hm. destruct (is_model_class w V Hm) as [v ->]. exists v.
    split; [done|]. intros Hv.
    assert (Hs : settled w N (parse_model w vm depth st (Cobj v) (cls_name (w v)))).
    { apply parse_model_settled; [done|by intros ? [= <-]|].
      pose proof (pending_le N (visited vm st)). lia. }
    destruct (parse_model w vm depth st (Cobj v) (cls_name (w v)))
      as [st'|e|] eqn:Hp; [|by destruct (aliases_complete_spec w N e Hal)|done].
    exists st'. split; [done|]. split.
    { unfold field_step. cbn [field_shape get_origin get_args mbind outcome_bind].
      unfold nested_type_name. rewrite Hm, Hkey.
      cbn [isinstance_type type_name class_of]. by rewrite Hp. }
    pose proof (parse_model_ok w vm depth st (Cobj v) st' Hp) as Hok.
    destruct (decide (Cobj v ∈ visited vm st)) as [Hin|Hout].
    + subst st'. by split_and!.
    + destruct Hok as (cs & He & _). split_and!.
      * rewrite (emits_visited _ _ _ _ _ He), list_to_set_app_L. set_solver.
      * done.
      * intros _. exists (message_of w <$> cs).
        rewrite (emits_messages _ _ _ _ _ He), fmap_app, list_fmap_singleton.
        unfold message_of at 2. by rewrite build_message_text.
  - intros Hm. unfold field_step.
    cbn [field_shape get_origin get_args mbind outcome_bind].
    unfold nested_type_name. by rewrite Hm, Hkey.
Qed.

Lemma map_field_rendering_witness :
  exists v, TClass (Cobj 1) = TClass (Cobj v) /\
    (v < 2 ->
     exists st',
       parse_model Examples.box_world 0 3 (State {[0 := {[Cobj 0]}]} []) (Cobj v)
         (cls_name (Examples.box_world v)) = Ok st' /\
       field_step Examples.box_world (parse_model Examples.box_world 0 3)
         (State {[0 := {[Cobj 0]}]} [], [], 1)
         ("items", TAlias ODict [Tstr; TClass (Cobj 1)])
       = Ok (st',
             [] ++ [map_field_line "string" (cls_name (Examples.box_world v)) "items" 1],
             1 + 1) /\
       Cobj v ∈ visited 0 st' /\
       (Cobj v ∈ visited 0 (State {[0 := {[Cobj 0]}]} []) ->
        st' = State {[0 := {[Cobj 0]}]} []) /\
       (Cobj v ∉ visited 0 (State {[0 := {[Cobj 0]}]} []) ->
        exists nested,
          proto_messages st'
          = proto_messages (State {[0 := {[Cobj 0]}]} []) ++ nested
            ++ ["message " +:+ cls_name (Examples.box_world v) +:+ " {" +:+ Str.nl
                +:+ foldr (fun line rest =>
                             "    " +:+ line +:+ ";" +:+ Str.nl +:+ rest)
                      ("}" +:+ Str.nl) (model_lines Examples.box_world (Cobj v))])).
Proof.
  apply (map_field_rendering Examples.box_world 0 2 3
           (State {[0 := {[Cobj 0]}]} []) [] 1 "items" Tstr (TClass (Cobj 1)));
    [reflexivity | reflexivity | lia | reflexivity].
Defined.

(** ** Field numbering *)

Lemma field_step_counts (w : world)
    (rec : state -> py_class -> string -> outcome state)
    (st st' : state) (fs fs' : list string) (idx idx' : nat) (f : string * py_type) :
  field_step w rec (st, fs, idx) f = Ok (st', fs', idx') ->
  idx' = idx + 1 /\
  exists pre, fs' = fs ++ [pre +:+ "= " +:+ pretty idx +:+ ";"].
Proof.
  destruct f as [field_name field_type]. unfold field_step.
  destruct (field_shape field_type) as [[repeated optional t|k v]| |];
    cbn [mbind outcome_bind]; try done.
  - destruct (nested_type_name w rec st t) as [[st1 name]| |];
      cbn [mbind outcome_bind]; try done.
    intros [= <- <- <-]. split; [done|].
    destruct (plain_field_line_index (if repeated then "repeated" else EmptyString)
                name field_name idx) as [pre ->]. by exists pre.
  - destruct (nested_type_name w rec st v) as [[st1 name]| |];
      cbn [mbind outcome_bind]; try done.
    intros [= <- <- <-]. split; [done|].
    destruct (map_field_line_index
                (if in_key_scalars k then map_scalar_type k else "string")
                name field_name idx) as [pre ->]. by exists pre.
Qed.

Lemma emitted_numbered (w : world) (vm : loc) (st st' : state) (cs : list py_class) :
  emits w vm st st' cs -> Forall (numbered w) (message_of w <$> cs).
Proof.
  intros He. apply Forall_fmap, Forall_forall. intros c Hc.
  exists c, (model_lines w c). split; [done|].
  unfold model_lines. split; [by rewrite length_imap|].
  intros k f Hk. split.
  - apply list_lookup_imap_Some. by exists f.
  - apply field_line_index. eapply (emits_shapes _ _ _ _ _ He); [done|].
    by eapply list_elem_of_lookup_2.
Qed.

(** C5. In every emitted message the lines are those of the fields of the
    class in extraction order and the line at position [k] carries the
    index [k + 1]: the indices are 1, 2, ..., n. The counter grows by one
    at every field, whatever its kind. *)
Theorem field_indices_sequential (w : world) :
  (forall depth h h' models already_visited schema,
     pydantic_models_to_protos depth w h models already_visited = Ok (schema, h') ->
     exists messages,
       schema = Str.join Str.nl messages /\ Forall (numbered w) messages) /\
  (forall rec st st' fs fs' idx idx' f,
     field_step w rec (st, fs, idx) f = Ok (st', fs', idx') ->
     idx' = idx + 1 /\
     exists pre, fs' = fs ++ [pre +:+ "= " +:+ pretty idx +:+ ";"]).
Proof.
  split.
  - intros depth h h' models av schema (vm & h0 & cs & _ & He & -> & _)%generate_emits.
    exists (reverse (message_of w <$> cs)). split; [done|].
    apply Forall_reverse. by eapply emitted_numbered.
  - intros. by eapply field_step_counts.
Qed.

Lemma field_indices_sequential_witness :
  exists messages,
    "message Point {" +:+ Str.nl +:+ "    int32 x = 1;;" +:+ Str.nl
      +:+ "    int32 y = 2;;" +:+ Str.nl +:+ "}" +:+ Str.nl
    = Str.join Str.nl messages /\
    Forall (numbered Examples.point_world) messages.
Proof.
  apply (proj1 (field_indices_sequential Examples.point_world)
           1 ∅ {[0 := {[Cobj 0]}]} [Cobj 0] None).
  vm_compute. reflexivity.
Defined.

(** ** Finite type graphs *)

Section Finite.

Variable w : world.
Variable N : nat.
Hypothesis closed : closed_below w N = true.

(** Generation terminates: beyond a depth of [N] the bound is not met. *)
Lemma generate_settled (depth : nat) (h : gmap loc (gset py_class))
    (models : list py_class) (already_visited : option loc) :
  (forall a, Cobj a ∈ models -> a < N) -> N < depth ->
  settled w N (pydantic_models_to_protos depth w h models already_visited).
Proof.
  intros Hmodels Hd. unfold pydantic_models_to_protos.
  destruct (or_new_set h already_visited) as [vm h0].
  assert (Hs : settled w N (models_loop w vm depth (State h0 []) models)).
  { apply models_loop_settled; [done..|].
    pose proof (pending_le N (visited vm (State h0 []))). lia. }
  by destruct (models_loop w vm depth (State h0 []) models).
Qed.

(** With every alias complete, generation returns. *)
Lemma generate_returns (depth : nat) (h : gmap loc (gset py_class))
    (models : list py_class) (already_visited : option loc) :
  aliases_complete w N = true ->
  (forall a, Cobj a ∈ models -> a < N) -> N < depth ->
  exists schema h',
    pydantic_models_to_protos depth w h models already_visited = Ok (schema, h').
Proof.
  intros Hal Hmodels Hd.
  pose proof (generate_settled depth h models already_visited Hmodels Hd) as Hs.
  destruct (pydantic_models_to_protos depth w h models already_visited)
    as [[schema h']|e|]; [by eauto| |done].
  by destruct (aliases_complete_spec w N e Hal).
Qed.

End Finite.

(** ** Order of the messages *)

Lemma models_loop_two (w : world) (vm : loc) (depth : nat) (st st' : state)
    (A B : py_class) :
  models_loop w vm depth st [A; B] = Ok st' ->
  exists st1,
    parse_model w vm depth st A (type_name w (TClass A)) = Ok st1 /\
    parse_model w vm depth st1 B (type_name w (TClass B)) = Ok st'.
Proof.
  cbn [models_loop].
  destruct (parse_model w vm depth st A _) as [st1| |]; cbn [mbind outcome_bind];
    try done.
  destruct (parse_model w vm depth st1 B _) as [st2| |] eqn:HB;
    cbn [mbind outcome_bind]; try done.
  intros [= <-]. by exists st1.
Qed.

(** When [parse_model] is called on [B] for a field of [A], which takes a
    field with at most one wrapper around [B], the schema generated for
    [[A; B]] in one call has the message of [A] before the message of
    [B]: the accumulator is reversed before it is joined, and the message
    of [B] was appended while the fields of [A] were processed. *)
Theorem referencing_message_first (w : world) (N depth : nat)
    (h : gmap loc (gset py_class)) (A B : handle) (k : nat) (f : string * py_type) :
  closed_below w N = true -> aliases_complete w N = true ->
  A < N -> B < N -> N < depth -> A ≠ B ->
  get_model_fields w (Cobj A) !! k = Some f -> nested_model w f.2 = Some (Cobj B) ->
  exists schema h' between after,
    pydantic_models_to_protos depth w h [Cobj A; Cobj B] None = Ok (schema, h') /\
    schema = Str.join Str.nl
               (message_of w (Cobj A) :: between ++ message_of w (Cobj B) :: after).
Proof.
  intros Hcl Hal HA HB Hd Hne Hf%list_elem_of_lookup_2 Hn.
  destruct (generate_returns w N Hcl depth h [Cobj A; Cobj B] None Hal)
    as (schema & h' & Hgen); [|done|].
  { intros a [[= ->]|[[= ->]|[]%elem_of_nil]%elem_of_cons]%elem_of_cons; done. }
  exists schema, h'.
  destruct (generate_returns_inv _ _ _ _ _ _ _ Hgen)
    as (vm & h0 & st' & Hor & Hl & -> & _).
  injection Hor as <- <-.
  destruct (models_loop_two _ _ _ _ _ _ _ Hl) as (st1 & HpA & HpB).
  set (st0 := State (<[fresh (dom h) := ∅]> h) []) in *.
  assert (HV0 : visited (fresh (dom h)) st0 = ∅).
  { unfold visited. simpl. by rewrite lookup_total_insert_eq. }
  pose proof (parse_model_ok w _ depth _ _ _ HpA) as HokA.
  rewrite decide_False in HokA by (rewrite HV0; set_solver).
  destruct HokA as (cs & He & Hnested).
  pose proof (Hnested f (Cobj B) Hf Hn) as HBin.
  pose proof (parse_model_ok w _ depth _ _ _ HpB) as HokB.
  rewrite decide_True in HokB by done. subst st'.
  assert (HBcs : Cobj B ∈ cs).
  { rewrite (emits_visited _ _ _ _ _ He), HV0, list_to_set_app_L in HBin.
    apply elem_of_union in HBin as [HBin|HBin]; [set_solver|].
    apply elem_of_union in HBin as [HBin|HBin]; [by apply elem_of_list_to_set in HBin|].
    apply elem_of_list_to_set, list_elem_of_singleton in HBin. congruence. }
  assert (Hmsg : message_of w (Cobj B) ∈ reverse (message_of w <$> cs)).
  { apply elem_of_reverse, list_elem_of_fmap. by exists (Cobj B). }
  apply list_elem_of_split in Hmsg as (between & after & Hsplit).
  exists between, after. split; [done|].
  pose proof (emits_messages _ _ _ _ _ He) as HM.
  change (proto_messages st0) with (@nil string) in HM.
  rewrite app_nil_l, fmap_app, <- (reverse_involutive (_ <$> cs)), Hsplit in HM.
  rewrite HM, reverse_app, reverse_involutive.
  by rewrite list_fmap_singleton, reverse_singleton.
Qed.

Lemma referencing_message_first_witness :
  exists schema h' between after,
    pydantic_models_to_protos 3 Examples.box_world ∅ [Cobj 0; Cobj 1] None
    = Ok (schema, h') /\
    schema = Str.join Str.nl
               (message_of Examples.box_world (Cobj 0)
                :: between ++ message_of Examples.box_world (Cobj 1) :: after).
Proof.
  apply (referencing_message_first Examples.box_world 2 3 ∅ 0 1 0
           ("items", Examples.Dict Tstr (TClass (Cobj 1)))).
  - reflexivity.
  - reflexivity.
  - lia.
  - lia.
  - lia.
  - lia.
  - reflexivity.
  - reflexivity.
Defined.

(** ** Cycles *)

Section Cycles.

Variable w : world.
Variable vm : loc.

(** The first steps of a call on a class that is not yet visited. *)
Lemma parse_model_marks_first (depth : nat) (st : state) (model : py_class)
    (message_name : string) :
  model ∉ visited vm st ->
  parse_model w vm (S depth) st model message_name
  = ('(st', fields, _) ←
       fields_loop w (parse_model w vm depth) (visited_add vm model st, [], 1)
         (get_model_fields w model);
     Ok (messages_append (build_message message_name fields) st')).
Proof. intros Hout. cbn [parse_model]. by rewrite decide_False. Qed.

(** Fields that refer to visited classes only leave the state alone. *)
Lemma fields_loop_all_visited (depth : nat) (l : field_dict) :
  forall (st st' : state) (fs fs' : list string) (idx idx' : nat),
  (forall f c, f ∈ l -> nested_model w f.2 = Some c -> c ∈ visited vm st) ->
  fields_loop w (parse_model w vm (S depth)) (st, fs, idx) l = Ok (st', fs', idx') ->
  st' = st.
Proof.
  induction l as [|[field_name field_type] l IH]; intros st st' fs fs' idx idx' Hv;
    cbn [fields_loop]; [by intros [= <- _ _]|].
  assert (Hstep : forall st1 fs1 idx1,
            field_step w (parse_model w vm (S depth)) (st, fs, idx)
              (field_name, field_type) = Ok (st1, fs1, idx1) -> st1 = st).
  { intros st1 fs1 idx1. unfold field_step.
    pose proof (Hv (field_name, field_type)) as Hf. unfold nested_model in Hf.
    cbn [snd] in Hf.
    destruct (field_shape field_type) as [sh| |]; cbn [mbind outcome_bind]; try done.
    assert (Hn : forall t st2 name, shape_target sh = t ->
              nested_type_name w (parse_model w vm (S depth)) st t = Ok (st2, name) ->
              st2 = st).
    { intros t st2 name Ht. unfold nested_type_name. rewrite Ht in Hf.
      destruct (is_model w t) eqn:Hm; [|by intros [= <- _]].
      destruct (is_model_class w t Hm) as [a ->]. cbn [isinstance_type] in *.
      rewrite parse_model_visited by (apply Hf; [by left|done]).
      cbn [mbind outcome_bind]. by intros [= <- _]. }
    destruct sh as [repeated optional t|key v]; cbn [shape_target] in Hn.
    - destruct (nested_type_name _ _ st t) as [[st2 name]| |] eqn:Hcall;
        cbn [mbind outcome_bind]; try done.
      intros [= <- _ _]. by eapply Hn.
    - destruct (nested_type_name _ _ st v) as [[st2 name]| |] eqn:Hcall;
        cbn [mbind outcome_bind]; try done.
      intros [= <- _ _]. by eapply Hn. }
  destruct (field_step _ _ _ _) as [[[st1 fs1] idx1]| |] eqn:Hs;
    cbn [mbind outcome_bind]; try done.
  rewrite (Hstep _ _ _ eq_refl). apply IH.
  intros f c Hf. apply Hv. by right.
Qed.

End Cycles.

Section SelfReference.

Variable w : world.
Variable N : nat.
Hypothesis closed : closed_below w N = true.
Hypothesis complete : aliases_complete w N = true.

Lemma self_reference (depth : nat) (h : gmap loc (gset py_class)) (T : handle)
    (k : nat) (f : string * py_type) :
  T < N -> N < depth ->
  get_model_fields w (Cobj T) !! k = Some f ->
  nested_model w f.2 = Some (Cobj T) ->
  exists schema h' cs sh,
    pydantic_models_to_protos depth w h [Cobj T] None = Ok (schema, h') /\
    schema = Str.join Str.nl (reverse (message_of w <$> (cs ++ [Cobj T]))) /\
    NoDup (cs ++ [Cobj T]) /\
    field_shape f.2 = Ok sh /\
    model_lines w (Cobj T) !! k
    = Some match sh with
           | Map key_type _ =>
               map_field_line
                 (if in_key_scalars key_type then map_scalar_type key_type
                  else "string")
                 (cls_name (w T)) f.1 (S k)
           | Plain repeated _ _ =>
               plain_field_line (if repeated then "repeated" else EmptyString)
                 (cls_name (w T)) f.1 (S k)
           end /\
    ((forall g c, g ∈ get_model_fields w (Cobj T) -> nested_model w g.2 = Some c ->
                  c = Cobj T) ->
     cs = []).
Proof.
  intros HT Hd Hk Hn.
  destruct (generate_returns w N closed depth h [Cobj T] None complete)
    as (schema & h' & Hgen); [|done|].
  { by intros a [[= ->]|[]%elem_of_nil]%elem_of_cons. }
  destruct (generate_returns_inv _ _ _ _ _ _ _ Hgen)
    as (vm & h0 & st' & Hor & Hl & -> & _).
  injection Hor as <- <-.
  set (vm := fresh (dom h)) in *.
  set (st0 := State (<[vm := ∅]> h) []) in *.
  assert (HV0 : visited vm st0 = ∅).
  { unfold visited. simpl. by rewrite lookup_total_insert_eq. }
  cbn [models_loop] in Hl.
  destruct (parse_model w vm depth st0 (Cobj T) _) as [st1| |] eqn:Hp;
    cbn [mbind outcome_bind] in Hl; try done.
  injection Hl as <-.
  pose proof (parse_model_ok w vm depth _ _ _ Hp) as Hok.
  rewrite decide_False in Hok by (rewrite HV0; set_solver).
  destruct Hok as (cs & He & _).
  pose proof (emits_messages _ _ _ _ _ He) as HM.
  change (proto_messages st0) with (@nil string) in HM. rewrite app_nil_l in HM.
  unfold nested_model in Hn.
  destruct (field_shape f.2) as [sh| |] eqn:Hsh; try done.
  destruct (is_model w (shape_target sh)) eqn:Hm; [|done].
  exists (Str.join Str.nl (reverse (proto_messages st1))), h', cs, sh.
  split_and!; [done|by rewrite HM|apply (emits_nodup _ _ _ _ _ He)|done| |].
  - unfold model_lines. apply list_lookup_imap_Some. exists f. split; [done|].
    unfold field_line. rewrite Hsh.
    assert (Hname : map_type w (shape_target sh) = cls_name (w T)).
    { rewrite map_type_model by done.
      destruct (shape_target sh) as [c| | | |]; try done.
      cbn [isinstance_type] in Hn. by injection Hn as ->. }
    destruct sh; cbn [render_line shape_target] in *; by rewrite Hname.
  - intros Honly. destruct depth as [|[|depth]]; [lia..|].
    rewrite parse_model_marks_first in Hp by (rewrite HV0; set_solver).
    destruct (fields_loop _ _ _ _) as [[[st2 fs2] idx2]| |] eqn:Hloop;
      cbn [mbind outcome_bind] in Hp; try done.
    apply fields_loop_all_visited in Hloop.
    + subst st2. injection Hp as <-. cbn [messages_append proto_messages] in HM.
      change (proto_messages (visited_add vm (Cobj T) st0)) with (@nil string) in HM.
      apply (f_equal length) in HM. rewrite length_fmap, !length_app in HM.
      simpl in HM. destruct cs; [done|simpl in HM; lia].
    + intros g c Hg Hc. rewrite (Honly g c Hg Hc), visited_visited_add. set_solver.
Qed.

End SelfReference.

(** Within a finite type graph, cyclic or not, generation terminates
    and a call that returns has emitted each class at most once:
    [parse_model] returns at once on a class of the visited set, and
    otherwise marks the class before it processes any field. A class with
    a field for which [parse_model] is called on the class itself, which
    takes at most one wrapper, gets one message, whose line for that
    field names the class. *)
Theorem visited_guard (w : world) (N : nat) :
  closed_below w N = true ->
  (forall depth h models already_visited,
     forallb (declared N) models = true -> N < depth ->
     pydantic_models_to_protos depth w h models already_visited ≠ Deeper) /\
  (forall depth h h' models already_visited schema,
     pydantic_models_to_protos depth w h models already_visited = Ok (schema, h') ->
     exists cs,
       NoDup cs /\ schema = Str.join Str.nl (reverse (message_of w <$> cs))) /\
  (forall vm depth st model message_name,
     model ∈ visited vm st ->
     parse_model w vm (S depth) st model message_name = Ok st) /\
  (forall vm depth st model message_name,
     model ∉ visited vm st ->
     model ∈ visited vm (visited_add vm model st) /\
     parse_model w vm (S depth) st model message_name
     = ('(st', fields, _) ←
          fields_loop w (parse_model w vm depth) (visited_add vm model st, [], 1)
            (get_model_fields w model);
        Ok (messages_append (build_message message_name fields) st'))) /\
  (forall depth h T k f,
     aliases_complete w N = true -> T < N -> N < depth ->
     get_model_fields w (Cobj T) !! k = Some f ->
     nested_model w f.2 = Some (Cobj T) ->
     exists schema h' cs sh,
       pydantic_models_to_protos depth w h [Cobj T] None = Ok (schema, h') /\
       schema = Str.join Str.nl (reverse (message_of w <$> (cs ++ [Cobj T]))) /\
       NoDup (cs ++ [Cobj T]) /\
       field_shape f.2 = Ok sh /\
       model_lines w (Cobj T) !! k
       = Some match sh with
              | Map key_type _ =>
                  map_field_line
                    (if in_key_scalars key_type then map_scalar_type key_type
                     else "string")
                    (cls_name (w T)) f.1 (S k)
              | Plain repeated _ _ =>
                  plain_field_line (if repeated then "repeated" else EmptyString)
                    (cls_name (w T)) f.1 (S k)
              end /\
       ((forall g c, g ∈ get_model_fields w (Cobj T) ->
                     nested_model w g.2 = Some c -> c = Cobj T) ->
        cs = [])).
Proof.
  intros Hcl. split_and!.
  - intros depth h models av Hmodels Hd Heq.
    assert (Hbelow : forall a, Cobj a ∈ models -> a < N).
    { intros a Ha%list_elem_of_In. rewrite forallb_forall in Hmodels.
      by apply Nat.ltb_lt, (Hmodels (Cobj a)). }
    pose proof (generate_settled w N Hcl depth h models av Hbelow Hd) as Hs.
    by rewrite Heq in Hs.
  - intros depth h h' models av schema (vm & h0 & cs & _ & He & -> & _)%generate_emits.
    exists cs. split; [apply (emits_nodup _ _ _ _ _ He)|done].
  - intros. by apply parse_model_visited.
  - intros vm depth st model name Hout. split.
    + rewrite visited_visited_add. set_solver.
    + by apply parse_model_marks_first.
  - intros depth h T k f Hal. by apply self_reference.
Qed.

Lemma visited_guard_witness :
  pydantic_models_to_protos 2 Examples.tree_world ∅ [Cobj 0] None ≠ Deeper /\
  exists schema h' cs sh,
    pydantic_models_to_protos 2 Examples.tree_world ∅ [Cobj 0] None
    = Ok (schema, h') /\
    schema = Str.join Str.nl
               (reverse (message_of Examples.tree_world <$> (cs ++ [Cobj 0]))) /\
    NoDup (cs ++ [Cobj 0]) /\
    field_shape (Examples.List (TClass (Cobj 0))) = Ok sh /\
    model_lines Examples.tree_world (Cobj 0) !! 1
    = Some match sh with
           | Map key_type _ =>
               map_field_line
                 (if in_key_scalars key_type then map_scalar_type key_type
                  else "string")
                 "Tree" "children" 2
           | Plain repeated _ _ =>
               plain_field_line (if repeated then "repeated" else EmptyString)
                 "Tree" "children" 2
           end /\
    ((forall g c, g ∈ get_model_fields Examples.tree_world (Cobj 0) ->
                  nested_model Examples.tree_world g.2 = Some c -> c = Cobj 0) ->
     cs = []).
Proof.
  destruct (visited_guard Examples.tree_world 1 eq_refl)
    as (Hterm & _ & _ & _ & Hself).
  split.
  - apply Hterm; [reflexivity | lia].
  - apply (Hself 2 ∅ 0 1 ("children", Examples.List (TClass (Cobj 0))));
      [reflexivity | lia | lia | reflexivity | reflexivity].
Defined.

(** * Further properties of the source *)

(** ** String helpers *)

Module StrSpecs.
Import Str.

Lemma app_nil_r (s : string) : s +:+ EmptyString = s.
Proof. induction s as [|c s IH]; [done|]. by rewrite StrFacts.app_cons, IH. Qed.

Lemma rev_app (s t : string) : rev (s +:+ t) = rev t +:+ rev s.
Proof.
  induction s as [|c s IH]; [by rewrite StrFacts.app_nil_l, app_nil_r|].
  rewrite StrFacts.app_cons. cbn [rev]. by rewrite IH, StrFacts.app_assoc.
Qed.

Lemma rev_involutive (s : string) : rev (rev s) = s.
Proof.
  induction s as [|c s IH]; [done|]. cbn [rev]. by rewrite rev_app, IH.
Qed.

Lemma prefix_spec (p s : string) :
  String.prefix p s = true <-> exists t, s = p +:+ t.
Proof.
  revert s. induction p as [|a p IH]; intros [|b s]; simpl.
  - split; [|done]. intros _. by exists EmptyString.
  - split; [|done]. intros _. by exists (String b s).
  - split; [done|]. by intros [t Ht].
  - destruct (ascii_dec a b) as [->|Hne].
    + rewrite IH. split; intros [t Ht]; exists t.
      * by rewrite StrFacts.app_cons, Ht.
      * rewrite StrFacts.app_cons in Ht. by injection Ht.
    + split; [done|]. intros [t Ht]. rewrite StrFacts.app_cons in Ht.
      injection Ht as Hab _. by destruct Hne.
Qed.

Lemma startswith_spec (s p : string) :
  startswith s p = true <-> exists t, s = p +:+ t.
Proof. apply prefix_spec. Qed.

Lemma endswith_spec (s p : string) :
  endswith s p = true <-> exists t, s = t +:+ p.
Proof.
  unfold endswith. rewrite prefix_spec. split; intros [t Ht].
  - exists (rev t). apply (f_equal rev) in Ht.
    by rewrite rev_app, !rev_involutive in Ht.
  - exists (rev t). by rewrite Ht, rev_app.
Qed.

End StrSpecs.

(** ** The classifier and the field extractor *)

(** X2. Only a model has fields: the extractor returns the empty mapping
    for the built-in classes and for every class that follows no
    convention. *)
Theorem fields_only_of_models (w : world) (c : py_class) (f : string * py_type) :
  f ∈ get_model_fields w c -> is_model w (TClass c) = true.
Proof.
  unfold get_model_fields, is_model.
  destruct c; try (by intros ?%elem_of_nil).
  cbn [in_scalars].
  destruct (is_pydantic_model w _); [done|].
  destruct (is_dataclass w _); [done|].
  destruct (is_attrs_class w _); [done|].
  destruct (is_typed_dict w _); [done|].
  destruct (is_regular_class w _); [done|]. by intros ?%elem_of_nil.
Qed.

Lemma fields_only_of_models_witness :
  is_model Examples.box_world (TClass (Cobj 0)) = true.
Proof.
  apply (fields_only_of_models Examples.box_world (Cobj 0)
           ("items", Examples.Dict Tstr (TClass (Cobj 1)))).
  vm_compute. left.
Defined.

(** X3. For a class outside [builtins] that follows none of the four
    declaration conventions, the fields are its non-routine members, in
    the order of enumeration, except those whose name both starts and
    ends with two underscores. *)
Theorem plain_class_fields (w : world) (h : handle) :
  cls_pydantic (w h) = false -> cls_dataclass_fields (w h) = None ->
  cls_attrs_fields (w h) = None -> cls_metaclass (w h) ≠ "TypedDictMeta" ->
  cls_module (w h) ≠ "builtins" ->
  sublist (get_model_fields w (Cobj h)) (cls_members (w h)) /\
  forall name t,
    (name, t) ∈ get_model_fields w (Cobj h) <->
    (name, t) ∈ cls_members (w h) /\
    ~ ((exists s, name = "__" +:+ s) /\ (exists s, name = s +:+ "__")).
Proof.
  intros Hp Hd Ha Ht Hm.
  assert (Hfields : get_model_fields w (Cobj h)
            = filter (fun nv => negb (is_dunder nv.1) = true) (cls_members (w h))).
  { unfold get_model_fields, is_regular_class, is_pydantic_model, is_dataclass,
      is_attrs_class, is_typed_dict. cbn [isinstance_type class_of].
    rewrite Hp, Hd, Ha. rewrite (bool_decide_false (is_Some None)) by (by intros [? ?]).
    rewrite (bool_decide_false (_ = "TypedDictMeta")) by done.
    by rewrite (bool_decide_true (_ ≠ "builtins")) by done. }
  rewrite Hfields. split; [apply sublist_filter|].
  intros name t. rewrite list_elem_of_filter. cbn [fst].
  unfold is_dunder. rewrite negb_true_iff, andb_false_iff.
  rewrite <- StrSpecs.startswith_spec, <- StrSpecs.endswith_spec.
  destruct (Str.startswith name "__"), (Str.endswith name "__"); intuition congruence.
Qed.

(** [class Plain: count = 10; __slots__ = ()] as [inspect.getmembers]
    shows its non-routine members. *)
Lemma plain_class_fields_witness :
  let w : world := fun _ =>
    ClassObj "Plain" "__main__" "type" false [] None None []
      [("__module__", Tstr); ("__slots__", TOpaque); ("count", Tint)] in
  sublist (get_model_fields w (Cobj 0)) (cls_members (w 0)) /\
  forall name t,
    (name, t) ∈ get_model_fields w (Cobj 0) <->
    (name, t) ∈ cls_members (w 0) /\
    ~ ((exists s, name = "__" +:+ s) /\ (exists s, name = s +:+ "__")).
Proof.
  intros w. apply (plain_class_fields w 0); [reflexivity..|discriminate|discriminate].
Defined.

(** ** Wrappers *)

(** X4. Looking at the wrappers of a declared type raises in three cases
    only: [AttributeError] for an object with a union, list or dict
    [__origin__] and no [__args__] (a bare [typing.List] or
    [typing.Dict]), [IndexError] for a list alias with an empty
    [__args__], [ValueError] for a dict alias whose arguments are neither
    none nor two. *)
Theorem field_shape_errors (t : py_type) :
  (field_shape t = Raise AttributeError <-> exists o, t = TBare o /\ o ≠ OOther) /\
  (field_shape t = Raise IndexError <-> t = TAlias OList []) /\
  (field_shape t = Raise ValueError <->
   exists args, t = TAlias ODict args /\ length args ≠ 0 /\ length args ≠ 2).
Proof.
  split_and!.
  - split.
    + destruct t as [c| |[] args|[]|]; cbn; try done.
      * by destruct (existsb is_NoneType args).
      * by destruct args.
      * by destruct args as [|k [|v [|x args]]].
      * intros _. by exists OUnion.
      * intros _. by exists OList.
      * intros _. by exists ODict.
    + intros (o & -> & Ho). by destruct o.
  - split; [|by intros ->].
    destruct t as [c| |[] args|[]|]; cbn; try done.
    + by destruct (existsb is_NoneType args).
    + by destruct args.
    + by destruct args as [|k [|v [|x args]]].
  - split.
    + destruct t as [c| |[] args|[]|]; cbn; try done.
      * by destruct (existsb is_NoneType args).
      * by destruct args.
      * destruct args as [|k [|v [|x args]]]; try done; intros _;
          eexists; (split; [done|]); simpl; lia.
    + intros (args & -> & H0 & H2).
      by destruct args as [|k [|v [|x args]]].
Qed.

Lemma field_shape_errors_witness :
  field_shape (TBare OList) = Raise AttributeError /\
  field_shape (TAlias OList []) = Raise IndexError /\
  exists args, TAlias ODict [Tint] = TAlias ODict args /\ length args ≠ 0 /\ length args ≠ 2.
Proof.
  split_and!.
  - apply (proj2 (proj1 (field_shape_errors (TBare OList)))).
    exists OList. split; [reflexivity | discriminate].
  - apply (proj2 (proj1 (proj2 (field_shape_errors (TAlias OList []))))). reflexivity.
  - apply (proj1 (proj2 (proj2 (field_shape_errors (TAlias ODict [Tint]))))). reflexivity.
Defined.

(** X5. An alias whose origin is a union, [list] or [dict] is never a
    model and is named [string]: where such an alias is left inside
    another wrapper, or is a union without [None], the line has the type
    [string], and no class is visited for it. *)
Theorem inner_alias_is_string (w : world)
    (rec : state -> py_class -> string -> outcome state)
    (st : state) (fs : list string) (idx : nat) (field_name : string)
    (o : py_origin) (inner : list py_type) :
  o ≠ OOther ->
  let alias := TAlias o inner in
  map_type w alias = "string" /\
  (forall args,
     existsb is_NoneType args = true ->
     hd TAny (filter (fun arg => is_NoneType arg = false) args) = alias ->
     field_step w rec (st, fs, idx) (field_name, TAlias OUnion args)
     = Ok (st, fs ++ [plain_field_line EmptyString "string" field_name idx], idx + 1)) /\
  (forall args,
     existsb is_NoneType args = false ->
     field_step w rec (st, fs, idx) (field_name, TAlias OUnion args)
     = Ok (st, fs ++ [plain_field_line EmptyString "string" field_name idx], idx + 1)) /\
  (forall rest,
     field_step w rec (st, fs, idx) (field_name, TAlias OList (alias :: rest))
     = Ok (st, fs ++ [plain_field_line "repeated" "string" field_name idx], idx + 1)) /\
  (forall key_type,
     field_step w rec (st, fs, idx) (field_name, TAlias ODict [key_type; alias])
     = Ok (st,
           fs ++ [map_field_line
                    (if in_key_scalars key_type then map_scalar_type key_type
                     else "string")
                    "string" field_name idx],
           idx + 1)).
Proof.
  intros _ alias. split_and!; [done|..].
  - intros args HN Hhd. unfold field_step.
    cbn [field_shape get_origin get_args mbind outcome_bind].
    by rewrite HN, Hhd.
  - intros args HN. unfold field_step.
    cbn [field_shape get_origin get_args mbind outcome_bind].
    by rewrite HN.
  - done.
  - done.
Qed.

Lemma inner_alias_is_string_witness :
  field_step Examples.node_world (parse_model Examples.node_world 0 1)
    (State ∅ [], [], 2)
    ("children", Examples.Optional (Examples.List (TClass (Cobj 0))))
  = Ok (State ∅ [], [] ++ [plain_field_line EmptyString "string" "children" 2], 2 + 1).
Proof.
  destruct (inner_alias_is_string Examples.node_world
              (parse_model Examples.node_world 0 1)
              (State ∅ []) [] 2 "children" OList [TClass (Cobj 0)])
    as (_ & Hoptional & _); [discriminate|].
  apply Hoptional; reflexivity.
Defined.

(** X6. An optional field is processed exactly as a field declared with
    the first member of the union that is not [None], whenever that
    member is not itself a wrapper: the message has no mark of the
    field being optional. *)
Theorem optional_is_dropped (w : world)
    (rec : state -> py_class -> string -> outcome state)
    (acc : state * list string * nat) (field_name : string)
    (args : list py_type) (t : py_type) :
  existsb is_NoneType args = true ->
  hd TAny (filter (fun arg => is_NoneType arg = false) args) = t ->
  get_origin t = None \/ get_origin t = Some OOther ->
  field_step w rec acc (field_name, TAlias OUnion args)
  = field_step w rec acc (field_name, t).
Proof.
  intros HN Hhd Ho. destruct acc as [[st fs] idx].
  unfold field_step. cbn [field_shape get_origin get_args mbind outcome_bind]. rewrite HN, Hhd.
  assert (Hsh : field_shape t = Ok (Plain false false t)).
  { unfold field_shape. by destruct Ho as [-> | ->]. }
  by rewrite Hsh.
Qed.

Lemma optional_is_dropped_witness :
  field_step Examples.box_world (parse_model Examples.box_world 0 1)
    (State ∅ [], [], 1) ("item", Examples.Optional (TClass (Cobj 1)))
  = field_step Examples.box_world (parse_model Examples.box_world 0 1)
      (State ∅ [], [], 1) ("item", TClass (Cobj 1)).
Proof.
  apply optional_is_dropped; [reflexivity | reflexivity | by left].
Defined.

(** X7. The text of a line: stripping removes nothing but the blank left
    in front of a line that is not repeated. A repeated line reads
    [repeated type name = idx;], and a plain line [type name = idx;] as
    soon as the name of the type starts with a character that is not
    white space. *)
Theorem plain_field_line_text (type_name field_name : string) (idx : nat) :
  plain_field_line "repeated" type_name field_name idx
  = "repeated " +:+ type_name +:+ " " +:+ field_name +:+ " = " +:+ pretty idx +:+ ";"
  /\
  (forall c rest, type_name = String c rest -> Str.is_space c = false ->
     plain_field_line EmptyString type_name field_name idx
     = type_name +:+ " " +:+ field_name +:+ " = " +:+ pretty idx +:+ ";").
Proof.
  assert (Hr : forall s, Str.rstrip (s +:+ ";") = s +:+ ";")
    by (intros s; by apply StrFacts.rstrip_ends).
  split.
  - unfold plain_field_line, Str.strip.
    replace ("repeated" +:+ " " +:+ type_name +:+ " " +:+ field_name +:+ " = "
             +:+ pretty idx +:+ ";")
      with (("repeated " +:+ type_name +:+ " " +:+ field_name +:+ " = "
             +:+ pretty idx) +:+ ";")
      by (by rewrite !StrFacts.app_assoc).
    rewrite Hr. by rewrite !StrFacts.app_assoc.
  - intros c rest -> Hc. unfold plain_field_line, Str.strip.
    replace (EmptyString +:+ " " +:+ String c rest +:+ " " +:+ field_name +:+ " = "
             +:+ pretty idx +:+ ";")
      with ((" " +:+ String c rest +:+ " " +:+ field_name +:+ " = "
             +:+ pretty idx) +:+ ";")
      by (by rewrite !StrFacts.app_assoc).
    rewrite Hr. rewrite !StrFacts.app_assoc.
    change (" " +:+ String c rest +:+ " " +:+ field_name +:+ " = " +:+ pretty idx +:+ ";")
      with (String " " (String c (rest +:+ " " +:+ field_name +:+ " = "
                                   +:+ pretty idx +:+ ";"))).
    cbn [Str.lstrip]. rewrite Hc. by change (Str.is_space " ") with true.
Qed.

Lemma plain_field_line_text_witness :
  plain_field_line EmptyString "int32" "x" 1
  = "int32" +:+ " " +:+ "x" +:+ " = " +:+ pretty 1 +:+ ";".
Proof.
  apply (proj2 (plain_field_line_text "int32" "x" 1) "i"%char "nt32"); reflexivity.
Defined.

(** ** Calls that return, calls that raise *)

Lemma declared_below (N : nat) (models : list py_class) :
  forallb (declared N) models = true -> forall a, Cobj a ∈ models -> a < N.
Proof.
  rewrite forallb_forall. intros Hall a Ha%list_elem_of_In.
  by apply Nat.ltb_lt, (Hall (Cobj a)).
Qed.

(** ** Edge cases of a call *)

Lemma visited_new_set (h : gmap loc (gset py_class)) (l : loc) (m : list string) :
  visited l (State (<[l := ∅]> h) m) = ∅.
Proof. unfold visited. simpl. by rewrite lookup_total_insert_eq. Qed.

Lemma or_new_set_frame (h h0 : gmap loc (gset py_class))
    (already_visited : option loc) (vm l : loc) :
  or_new_set h already_visited = (vm, h0) ->
  is_Some (h !! l) -> h0 !! l = h !! l.
Proof.
  assert (Hfresh : is_Some (h !! l) -> <[fresh (dom h) := ∅]> h !! l = h !! l).
  { intros Hl. apply lookup_insert_ne. intros <-.
    by apply (is_fresh (dom h)), elem_of_dom. }
  unfold or_new_set. destruct already_visited as [l0|].
  - destruct (truthy h (Some l0)); intros [= <- <-]; auto.
  - intros [= <- <-]; auto.
Qed.

(** X9. A class without fields, a built-in class among them, gets a
    message with an empty body. *)
Theorem fieldless_class_message (w : world) (depth : nat)
    (h : gmap loc (gset py_class)) (c : py_class) :
  get_model_fields w c = [] ->
  schema_of (pydantic_models_to_protos (S depth) w h [c] None)
  = Ok ("message " +:+ cls_name (class_of w c) +:+ " {" +:+ Str.nl
        +:+ "}" +:+ Str.nl).
Proof.
  intros Hf. unfold pydantic_models_to_protos. cbn [or_new_set models_loop].
  rewrite parse_model_marks_first by (rewrite visited_new_set; set_solver).
  rewrite Hf. cbn [fields_loop mbind outcome_bind schema_of].
  cbn [messages_append proto_messages visited_add]. f_equal.
  unfold build_message. cbn [fold_left type_name app reverse].
  rewrite !StrFacts.app_assoc. reflexivity.
Qed.

Lemma fieldless_class_message_witness :
  schema_of (pydantic_models_to_protos 1 Examples.point_world ∅ [Cint] None)
  = Ok ("message " +:+ "int" +:+ " {" +:+ Str.nl +:+ "}" +:+ Str.nl).
Proof.
  apply (fieldless_class_message Examples.point_world 0 ∅ Cint). reflexivity.
Defined.

(** X10. With no model requested the schema is the empty text, whatever
    the depth and whatever is given as [already_visited], and every set
    of the caller is as it was. *)
Theorem no_models_no_text (w : world) (depth : nat)
    (h : gmap loc (gset py_class)) (already_visited : option loc) :
  exists h',
    pydantic_models_to_protos depth w h [] already_visited = Ok (EmptyString, h') /\
    forall l, is_Some (h !! l) -> h' !! l = h !! l.
Proof.
  unfold pydantic_models_to_protos.
  destruct (or_new_set h already_visited) as [vm h0] eqn:Hor.
  exists h0. split; [done|]. intros l. by apply (or_new_set_frame _ _ _ _ _ Hor).
Qed.

Lemma no_models_no_text_witness :
  exists h',
    pydantic_models_to_protos 0 Examples.box_world {[7 := ∅]} [] (Some 7)
    = Ok (EmptyString, h') /\
    forall l, is_Some (({[7 := ∅]} : gmap loc (gset py_class)) !! l) ->
              h' !! l = ({[7 := ∅]} : gmap loc (gset py_class)) !! l.
Proof. apply (no_models_no_text Examples.box_world 0 {[7 := ∅]} (Some 7)). Defined.

(** X11. A call without [already_visited] changes no set of the caller:
    what it marks goes to a set of its own. *)
Theorem no_seed_no_mutation (w : world) (depth : nat)
    (h h' : gmap loc (gset py_class)) (models : list py_class) (schema : string) :
  pydantic_models_to_protos depth w h models None = Ok (schema, h') ->
  forall l, is_Some (h !! l) -> h' !! l = h !! l.
Proof.
  intros (vm & h0 & cs & Hor & He & _ & _)%generate_emits l Hl.
  pose proof (or_new_set_frame _ _ _ _ l Hor Hl) as Hframe.
  injection Hor as <- <-.
  rewrite <- Hframe. apply (emits_frame _ _ _ _ _ He). intros ->.
  by apply (is_fresh (dom h)), elem_of_dom.
Qed.

Lemma no_seed_no_mutation_witness :
  ({[8 := {[Cobj 0; Cobj 1]}; 7 := {[Cobj 1]}]} : gmap loc (gset py_class)) !! 7
  = ({[7 := {[Cobj 1]}]} : gmap loc (gset py_class)) !! 7.
Proof.
  apply (no_seed_no_mutation Examples.box_world 2 {[7 := {[Cobj 1]}]} _ [Cobj 0]
           ("message Box {" +:+ Str.nl +:+ "    map<string, Item> items = 1;;"
            +:+ Str.nl +:+ "}" +:+ Str.nl +:+ Str.nl
            +:+ "message Item {" +:+ Str.nl +:+ "    string name = 1;;" +:+ Str.nl
            +:+ "}" +:+ Str.nl)).
  - vm_compute. reflexivity.
  - vm_compute. eauto.
Defined.

(** ** Relations kept along the loops *)

Section LoopRelations.

Variable w : world.
Variable vm : loc.

(** The state changes at a field only through the call made for it. *)
Lemma field_step_call (rec : state -> py_class -> string -> outcome state)
    (st st' : state) (fs fs' : list string) (idx idx' : nat) (f : string * py_type) :
  field_step w rec (st, fs, idx) f = Ok (st', fs', idx') ->
  st' = st \/
  exists c, nested_model w f.2 = Some c /\
            rec st c (type_name w (TClass c)) = Ok st'.
Proof.
  destruct f as [field_name field_type]. unfold field_step, nested_model. cbn [snd].
  destruct (field_shape field_type) as [sh| |]; cbn [mbind outcome_bind]; try done.
  assert (Hn : forall t st1 name,
            nested_type_name w rec st t = Ok (st1, name) ->
            st1 = st \/
            exists c, (if is_model w t then isinstance_type t else None) = Some c /\
                      rec st c (type_name w (TClass c)) = Ok st1).
  { intros t st1 name. unfold nested_type_name.
    destruct (is_model w t) eqn:Hm; [|intros [= <- _]; by left].
    destruct (is_model_class w t Hm) as [a ->]. cbn [isinstance_type].
    destruct (rec st (Cobj a) _) as [st2| |] eqn:Hcall; cbn [mbind outcome_bind];
      try done.
    intros [= <- _]. right. by exists (Cobj a). }
  destruct sh as [repeated optional t|key v]; cbn [shape_target].
  - destruct (nested_type_name w rec st t) as [[st1 name]| |] eqn:Hcall;
      cbn [mbind outcome_bind]; try done.
    intros [= <- _ _]. by eapply Hn.
  - destruct (nested_type_name w rec st v) as [[st1 name]| |] eqn:Hcall;
      cbn [mbind outcome_bind]; try done.
    intros [= <- _ _]. by eapply Hn.
Qed.

Section Relation.

Variable P : state -> state -> Prop.
Hypothesis P_refl : forall st, P st st.
Hypothesis P_trans : forall st1 st2 st3, P st1 st2 -> P st2 st3 -> P st1 st3.

Lemma fields_loop_rel (rec : state -> py_class -> string -> outcome state)
    (l : field_dict) :
  (forall st c st' f, f ∈ l -> nested_model w f.2 = Some c ->
     rec st c (type_name w (TClass c)) = Ok st' -> P st st') ->
  forall st st' fs fs' idx idx',
  fields_loop w rec (st, fs, idx) l = Ok (st', fs', idx') -> P st st'.
Proof.
  induction l as [|f l IH]; intros Hrec st st' fs fs' idx idx'; cbn [fields_loop].
  - by intros [= <- _ _].
  - destruct (field_step w rec (st, fs, idx) f) as [[[st1 fs1] idx1]| |] eqn:Hs;
      cbn [mbind outcome_bind]; try done.
    intros Hl. apply (P_trans _ st1).
    + destruct (field_step_call _ _ _ _ _ _ _ _ Hs) as [->|(c & Hn & Hcall)]; [done|].
      apply (Hrec st c st1 f); [by left|done..].
    + apply (IH (fun st c st' f Hf => Hrec st c st' f (list_elem_of_further _ _ _ Hf))
               _ _ _ _ _ _ Hl).
Qed.

Lemma models_loop_rel (depth : nat) (models : list py_class) :
  (forall st c st', c ∈ models ->
     parse_model w vm depth st c (type_name w (TClass c)) = Ok st' -> P st st') ->
  forall st st', models_loop w vm depth st models = Ok st' -> P st st'.
Proof.
  induction models as [|m models IH]; intros Hrec st st'; cbn [models_loop].
  - by intros [= <-].
  - destruct (parse_model w vm depth st m _) as [st1| |] eqn:Hp;
      cbn [mbind outcome_bind]; try done.
    intros Hl. apply (P_trans _ st1).
    + apply (Hrec st m st1); [by left|done].
    + apply IH; [|done]. intros st2 c st3 Hc. apply Hrec. by right.
Qed.

End Relation.

Lemma parse_model_grows (depth : nat) (st st' : state) (c : py_class) :
  parse_model w vm depth st c (type_name w (TClass c)) = Ok st' ->
  visited vm st ⊆ visited vm st'.
Proof.
  intros Hp.
  destruct (emitter_ok_emits w vm _ _ _ _ (parse_model_ok w vm depth) Hp)
    as (cs & He & _).
  rewrite (emits_visited _ _ _ _ _ He). set_solver.
Qed.

(** Whatever a call visits refers to visited classes only. *)
Lemma parse_model_closed (depth : nat) :
  forall st c st',
  parse_model w vm depth st c (type_name w (TClass c)) = Ok st' ->
  visited vm st ⊆ visited vm st' /\
  forall x x', x ∈ visited vm st' -> x ∉ visited vm st -> refers_to w x x' ->
               x' ∈ visited vm st'.
Proof.
  induction depth as [|depth IH]; intros st c st' Hp; [done|].
  split; [by eapply parse_model_grows|].
  pose proof (parse_model_ok w vm (S depth) _ _ _ Hp) as Hok.
  cbn [parse_model] in Hp.
  destruct (decide (c ∈ visited vm st)) as [Hin|Hout].
  { injection Hp as <-. by intros x x' Hx Hx'. }
  destruct Hok as (cs & He & Hroot).
  destruct (fields_loop _ _ _ _) as [[[st2 fs2] idx2]| |] eqn:Hl;
    cbn [mbind outcome_bind] in Hp; try done.
  injection Hp as <-. rewrite visited_messages_append in *.
  apply (fields_loop_rel
           (fun a b => visited vm a ⊆ visited vm b /\
              forall x x', x ∈ visited vm b -> x ∉ visited vm a ->
                           refers_to w x x' -> x' ∈ visited vm b)) in Hl.
  - destruct Hl as [Hsub Hcl]. intros x x' Hx Hnew Href.
    destruct (decide (x = c)) as [->|Hne].
    + destruct Href as (f & Hf & Hn). by apply (Hroot f x').
    + apply (Hcl x x'); [done| |done].
      rewrite visited_visited_add. set_solver.
  - by intros a.
  - intros a b d [Hab Hclab] [Hbd Hclbd]. split; [set_solver|].
    intros x x' Hx Hnew Href.
    destruct (decide (x ∈ visited vm b)) as [Hxb|Hxb]; [|by eauto].
    apply Hbd. by eauto.
  - intros a c1 b f _ _ Hcall. by apply IH in Hcall.
Qed.

(** Whatever a call visits is reached from the class it is called on. *)
Lemma parse_model_reaches (depth : nat) :
  forall st c st',
  parse_model w vm depth st c (type_name w (TClass c)) = Ok st' ->
  forall x, x ∈ visited vm st' -> x ∉ visited vm st -> rtc (refers_to w) c x.
Proof.
  induction depth as [|depth IH]; intros st c st' Hp; [done|].
  cbn [parse_model] in Hp.
  destruct (decide (c ∈ visited vm st)) as [Hin|Hout].
  { injection Hp as <-. by intros x Hx Hx'. }
  destruct (fields_loop _ _ _ _) as [[[st2 fs2] idx2]| |] eqn:Hl;
    cbn [mbind outcome_bind] in Hp; try done.
  injection Hp as <-.
  apply (fields_loop_rel
           (fun a b => visited vm a ⊆ visited vm b /\
              forall x, x ∈ visited vm b -> x ∉ visited vm a ->
                        exists c1, refers_to w c c1 /\ rtc (refers_to w) c1 x)) in Hl.
  - destruct Hl as [Hsub Hre]. intros x Hx Hnew. rewrite visited_messages_append in Hx.
    destruct (decide (x = c)) as [->|Hne]; [done|].
    destruct (Hre x) as (c1 & Href & Hrtc); [done| |by eapply rtc_l].
    rewrite visited_visited_add. set_solver.
  - by intros a.
  - intros a b d [Hab Hreab] [Hbd Hrebd]. split; [set_solver|].
    intros x Hx Hnew.
    destruct (decide (x ∈ visited vm b)) as [Hxb|Hxb]; by eauto.
  - intros a c1 b f Hf Hn Hcall. split; [by eapply parse_model_grows|].
    intros x Hx Hnew. exists c1. split; [by exists f|]. by eapply IH.
Qed.

End LoopRelations.

(** ** Reusing the visited set *)

Lemma models_loop_all_visited (w : world) (vm : loc) (depth : nat) (st : state)
    (models : list py_class) :
  (forall c, c ∈ models -> c ∈ visited vm st) ->
  models_loop w vm (S depth) st models = Ok st.
Proof.
  induction models as [|m models IH]; intros Hin; cbn [models_loop]; [done|].
  rewrite parse_model_visited by (apply Hin; by left).
  cbn [mbind outcome_bind]. apply IH. intros c Hc. apply Hin. by right.
Qed.

(** X12. When a call with a non-empty set as [already_visited] has
    returned, the same call made again with that set returns the empty
    text and leaves the set as it is: nothing is emitted twice across
    calls that share the set. *)
Theorem second_call_is_empty (w : world) (depth : nat)
    (h h' : gmap loc (gset py_class)) (models : list py_class) (l : loc)
    (S : gset py_class) (schema : string) :
  h !! l = Some S -> S ≠ ∅ ->
  pydantic_models_to_protos depth w h models (Some l) = Ok (schema, h') ->
  pydantic_models_to_protos depth w h' models (Some l) = Ok (EmptyString, h').
Proof.
  intros Hl HS Hgen.
  destruct (generate_returns_inv _ _ _ _ _ _ _ Hgen) as (vm & h0 & st' & Hor & Hloop & _ & ->).
  rewrite (or_new_set_shared h l S) in Hor by done. injection Hor as <- <-.
  destruct (models_loop_emits w l _ _ _ _ Hloop) as (cs & He & Hin).
  assert (Hsome : is_Some (heap (State h []) !! l)) by (simpl; rewrite Hl; eauto).
  destruct (emits_alloc _ _ _ _ _ He Hsome) as [S' HS'].
  assert (HV : visited l st' = S') by (unfold visited; by rewrite (lookup_total_correct _ _ _ HS')).
  assert (HSS' : S ⊆ S').
  { rewrite <- HV, (emits_visited _ _ _ _ _ He). unfold visited at 1. simpl.
    rewrite (lookup_total_correct _ _ _ Hl). set_solver. }
  unfold pydantic_models_to_protos.
  rewrite (or_new_set_shared (heap st') l S') by (done || set_solver).
  destruct models as [|m models]; [done|].
  destruct depth as [|depth]; [done|].
  rewrite models_loop_all_visited; [done|].
  intros c Hc. specialize (Hin c Hc). unfold visited in *. by simpl.
Qed.

Lemma second_call_is_empty_witness :
  pydantic_models_to_protos 2 Examples.box_world {[7 := {[Cobj 1; Cobj 0]}]}
    [Cobj 0] (Some 7)
  = Ok (EmptyString, {[7 := {[Cobj 1; Cobj 0]}]}).
Proof.
  apply (second_call_is_empty Examples.box_world 2 {[7 := {[Cobj 1]}]} _ [Cobj 0] 7
           {[Cobj 1]}
           ("message Box {" +:+ Str.nl +:+ "    map<string, Item> items = 1;;"
            +:+ Str.nl +:+ "}" +:+ Str.nl)).
  - reflexivity.
  - vm_compute. discriminate.
  - vm_compute. reflexivity.
Defined.

(** ** What the schema contains *)

Section Contents.

Variable w : world.

Lemma generate_visits (depth : nat) (h h' : gmap loc (gset py_class))
    (models : list py_class) (already_visited : option loc) (schema : string) :
  pydantic_models_to_protos depth w h models already_visited = Ok (schema, h') ->
  exists vm h0 st' cs,
    or_new_set h already_visited = (vm, h0) /\
    models_loop w vm depth (State h0 []) models = Ok st' /\
    emits w vm (State h0 []) st' cs /\
    schema = Str.join Str.nl (reverse (message_of w <$> cs)) /\
    (forall c, c ∈ cs <-> c ∈ visited vm st' /\ c ∉ visited vm (State h0 [])) /\
    (forall c, c ∈ models -> c ∈ visited vm st').
Proof.
  intros (vm & h0 & st' & Hor & Hloop & -> & _)%generate_returns_inv.
  destruct (models_loop_emits w vm _ _ _ _ Hloop) as (cs & He & Hin).
  exists vm, h0, st', cs. split_and!; try done.
  - by rewrite (emits_messages _ _ _ _ _ He).
  - intros c. rewrite (emits_visited _ _ _ _ _ He). split.
    + intros Hc. split; [|by apply (emits_new _ _ _ _ _ He)].
      apply elem_of_union_r. by apply elem_of_list_to_set.
    + intros [[Hc|Hc]%elem_of_union Hnew]; [done|]. by apply elem_of_list_to_set in Hc.
Qed.

Lemma models_loop_closed (vm : loc) (depth : nat) (models : list py_class)
    (st st' : state) :
  models_loop w vm depth st models = Ok st' ->
  visited vm st ⊆ visited vm st' /\
  forall x x', x ∈ visited vm st' -> x ∉ visited vm st -> refers_to w x x' ->
               x' ∈ visited vm st'.
Proof.
  apply (models_loop_rel w vm
           (fun a b => visited vm a ⊆ visited vm b /\
              forall x x', x ∈ visited vm b -> x ∉ visited vm a ->
                           refers_to w x x' -> x' ∈ visited vm b)).
  - by intros a.
  - intros a b d [Hab Hclab] [Hbd Hclbd]. split; [set_solver|].
    intros x x' Hx Hx' Hr.
    destruct (decide (x ∈ visited vm b)) as [Hxb|Hxb]; [|by eauto].
    apply Hbd. by eauto.
  - intros a c1 b _ Hcall. by apply parse_model_closed in Hcall.
Qed.

(** X13. The schema is closed under reference: a class that an emitted
    class refers to through a field has a message in the schema too,
    unless it was in the set given as [already_visited]. *)
Theorem schema_is_closed (depth : nat) (h h' : gmap loc (gset py_class))
    (models : list py_class) (already_visited : option loc) (schema : string) :
  pydantic_models_to_protos depth w h models already_visited = Ok (schema, h') ->
  exists cs,
    schema = Str.join Str.nl (reverse (message_of w <$> cs)) /\
    forall c c', c ∈ cs -> refers_to w c c' ->
      c' ∈ cs \/
      exists l S, already_visited = Some l /\ h !! l = Some S /\ c' ∈ S.
Proof.
  intros (vm & h0 & st' & cs & Hor & Hloop & He & -> & Hcs & _)%generate_visits.
  exists cs. split; [done|]. intros c c' [Hc Hnew]%Hcs Href.
  assert (Hcl : c' ∈ visited vm st')
    by (by apply (proj2 (models_loop_closed _ _ _ _ _ Hloop) c c')).
  destruct (decide (c' ∈ visited vm (State h0 []))) as [Hseed|Hseed];
    [|left; by apply Hcs].
  right. unfold or_new_set, truthy in Hor. destruct already_visited as [l|].
  - destruct (h !! l) as [S|] eqn:Hl.
    + case_bool_decide.
      * injection Hor as <- <-. exists l, S. split_and!; try done.
        unfold visited in Hseed. simpl in Hseed.
        by rewrite (lookup_total_correct _ _ _ Hl) in Hseed.
      * injection Hor as <- <-. rewrite visited_new_set in Hseed. set_solver.
    + injection Hor as <- <-. rewrite visited_new_set in Hseed. set_solver.
  - injection Hor as <- <-. rewrite visited_new_set in Hseed. set_solver.
Qed.

Lemma models_loop_reaches (vm : loc) (depth : nat) (models : list py_class)
    (st st' : state) :
  models_loop w vm depth st models = Ok st' ->
  visited vm st ⊆ visited vm st' /\
  forall x, x ∈ visited vm st' -> x ∉ visited vm st -> reachable w models x.
Proof.
  apply (models_loop_rel w vm
           (fun a b => visited vm a ⊆ visited vm b /\
              forall x, x ∈ visited vm b -> x ∉ visited vm a -> reachable w models x)).
  - by intros a.
  - intros a b d [Hab Hrab] [Hbd Hrbd]. split; [set_solver|].
    intros x Hx Hnew. destruct (decide (x ∈ visited vm b)); by eauto.
  - intros a c b Hc Hcall. split; [by eapply parse_model_grows|].
    intros x Hx Hnew. exists c. split; [done|]. by eapply parse_model_reaches.
Qed.

(** X14. Without [already_visited], the classes that get a message are
    exactly the classes reached from the requested ones through fields:
    each of them once, and no other class. *)
Theorem emitted_iff_reachable (depth : nat) (h h' : gmap loc (gset py_class))
    (models : list py_class) (schema : string) :
  pydantic_models_to_protos depth w h models None = Ok (schema, h') ->
  exists cs,
    NoDup cs /\
    schema = Str.join Str.nl (reverse (message_of w <$> cs)) /\
    forall c, c ∈ cs <-> reachable w models c.
Proof.
  intros (vm & h0 & st' & cs & Hor & Hloop & He & -> & Hcs & Hmodels)%generate_visits.
  injection Hor as <- <-.
  exists cs. split; [apply (emits_nodup _ _ _ _ _ He)|]. split; [done|].
  assert (Hall : forall c, c ∈ cs <-> c ∈ visited (fresh (dom h)) st').
  { intros c. rewrite Hcs, visited_new_set. set_solver. }
  intros c. split.
  - intros [Hc Hnew]%Hcs. by apply (models_loop_reaches _ _ _ _ _ Hloop).
  - intros (m & Hm & Hrtc). apply Hall.
    assert (Hstart : m ∈ visited (fresh (dom h)) st') by (by apply Hmodels).
    clear Hm. induction Hrtc as [x|x y z Hxy _ IH]; [done|].
    apply IH. apply (proj2 (models_loop_closed _ _ _ _ _ Hloop) x y); [done| |done].
    rewrite visited_new_set. set_solver.
Qed.

End Contents.

Lemma schema_is_closed_witness :
  exists cs,
    "message Box {" +:+ Str.nl +:+ "    map<string, Item> items = 1;;" +:+ Str.nl
      +:+ "}" +:+ Str.nl +:+ Str.nl
      +:+ "message Item {" +:+ Str.nl +:+ "    string name = 1;;" +:+ Str.nl
      +:+ "}" +:+ Str.nl
    = Str.join Str.nl (reverse (message_of Examples.box_world <$> cs)) /\
    forall c c', c ∈ cs -> refers_to Examples.box_world c c' ->
      c' ∈ cs \/
      exists l S, None = Some l /\ (∅ : gmap loc (gset py_class)) !! l = Some S /\ c' ∈ S.
Proof.
  apply (schema_is_closed Examples.box_world 2 ∅ {[0 := {[Cobj 0; Cobj 1]}]}
           [Cobj 0] None).
  vm_compute. reflexivity.
Defined.

Lemma emitted_iff_reachable_witness :
  exists cs,
    NoDup cs /\
    "message Box {" +:+ Str.nl +:+ "    map<string, Item> items = 1;;" +:+ Str.nl
      +:+ "}" +:+ Str.nl +:+ Str.nl
      +:+ "message Item {" +:+ Str.nl +:+ "    string name = 1;;" +:+ Str.nl
      +:+ "}" +:+ Str.nl
    = Str.join Str.nl (reverse (message_of Examples.box_world <$> cs)) /\
    forall c, c ∈ cs <-> reachable Examples.box_world [Cobj 0] c.
Proof.
  apply (emitted_iff_reachable Examples.box_world 2 ∅ {[0 := {[Cobj 0; Cobj 1]}]}
           [Cobj 0]).
  vm_compute. reflexivity.
Defined.

(** ** Order of the requests *)

Lemma models_loop_app (w : world) (vm : loc) (depth : nat) (ms1 ms2 : list py_class) :
  forall st,
  models_loop w vm depth st (ms1 ++ ms2)
  = (st1 ← models_loop w vm depth st ms1; models_loop w vm depth st1 ms2).
Proof.
  induction ms1 as [|m ms1 IH]; intros st; cbn [app models_loop]; [done|].
  destruct (parse_model w vm depth st m _) as [st1| |]; cbn [mbind outcome_bind];
    [apply IH|done..].
Qed.

(** X15. Without [already_visited], the schema starts with the message of
    the model requested last, unless that model is reached from a model
    requested before it: the requests come out in reverse. *)
Theorem last_request_heads_schema (w : world) (depth : nat)
    (h h' : gmap loc (gset py_class)) (models : list py_class) (T : py_class)
    (schema : string) :
  pydantic_models_to_protos depth w h (models ++ [T]) None = Ok (schema, h') ->
  ~ reachable w models T ->
  exists rest, schema = Str.join Str.nl (message_of w T :: rest).
Proof.
  intros (vm & h0 & st' & Hor & Hloop & -> & _)%generate_returns_inv Hnot.
  injection Hor as <- <-. rewrite models_loop_app in Hloop.
  destruct (models_loop w _ depth _ models) as [st1| |] eqn:Hfirst;
    cbn [mbind outcome_bind] in Hloop; try done.
  cbn [models_loop] in Hloop.
  destruct (parse_model w _ depth st1 T _) as [st2| |] eqn:Hp;
    cbn [mbind outcome_bind] in Hloop; try done.
  injection Hloop as <-.
  pose proof (parse_model_ok w _ depth _ _ _ Hp) as Hok.
  rewrite decide_False in Hok.
  - destruct Hok as (cs & He & _). rewrite (emits_messages _ _ _ _ _ He).
    rewrite fmap_app, !reverse_app, list_fmap_singleton, reverse_singleton.
    cbn [app]. by eexists.
  - intros HT. apply Hnot.
    apply (proj2 (models_loop_reaches w _ _ _ _ _ Hfirst) T HT).
    rewrite visited_new_set. set_solver.
Qed.

Lemma last_request_heads_schema_witness :
  exists rest,
    "message Box {" +:+ Str.nl +:+ "    map<string, Item> items = 1;;" +:+ Str.nl
      +:+ "}" +:+ Str.nl +:+ Str.nl
      +:+ "message Item {" +:+ Str.nl +:+ "    string name = 1;;" +:+ Str.nl
      +:+ "}" +:+ Str.nl
    = Str.join Str.nl (message_of Examples.box_world (Cobj 0) :: rest).
Proof.
  apply (last_request_heads_schema Examples.box_world 2 ∅
           {[0 := {[Cobj 0; Cobj 1]}]} [Cobj 1] (Cobj 0)).
  - vm_compute. reflexivity.
  - intros (m & Hm & Hrtc). apply list_elem_of_singleton in Hm. subst m.
    inversion Hrtc as [|x y z (f & Hf & Hn) Hrest]; subst.
    apply list_elem_of_singleton in Hf. subst f. discriminate Hn.
Defined.

(** ** Calls that share the visited set *)

Section Prefix.

Variable w : world.
Variable vm : loc.
Variable pre : list string.

Lemma fields_loop_prepend (rec : state -> py_class -> string -> outcome state)
    (l : field_dict) :
  (forall st c name,
     rec (prepend_messages pre st) c name
     = outcome_map (prepend_messages pre) (rec st c name)) ->
  forall st fs idx,
  fields_loop w rec (prepend_messages pre st, fs, idx) l
  = outcome_map (fun acc : state * list string * nat =>
                   (prepend_messages pre acc.1.1, acc.1.2, acc.2))
      (fields_loop w rec (st, fs, idx) l).
Proof.
  intros Hrec. induction l as [|[field_name field_type] l IH]; intros st fs idx;
    cbn [fields_loop]; [done|].
  assert (Hn : forall t,
            nested_type_name w rec (prepend_messages pre st) t
            = outcome_map (fun p : state * string => (prepend_messages pre p.1, p.2))
                (nested_type_name w rec st t)).
  { intros t. unfold nested_type_name. destruct (is_model w t); [|done].
    destruct (isinstance_type t) as [c|]; [|done].
    rewrite Hrec. by destruct (rec st c _). }
  assert (Hs : field_step w rec (prepend_messages pre st, fs, idx) (field_name, field_type)
            = outcome_map (fun acc : state * list string * nat =>
                             (prepend_messages pre acc.1.1, acc.1.2, acc.2))
                (field_step w rec (st, fs, idx) (field_name, field_type))).
  { unfold field_step.
    destruct (field_shape field_type) as [[repeated optional t|key v]| |];
      cbn [mbind outcome_bind outcome_map]; try done.
    - rewrite Hn. by destruct (nested_type_name w rec st t) as [[st1 name]| |].
    - rewrite Hn. by destruct (nested_type_name w rec st v) as [[st1 name]| |]. }
  rewrite Hs.
  destruct (field_step w rec (st, fs, idx) _) as [[[st1 fs1] idx1]| |];
    cbn [mbind outcome_bind outcome_map]; [apply IH|done..].
Qed.

(** What is already in the accumulator does not matter to a call. *)
Lemma parse_model_prepend (depth : nat) :
  forall st c name,
  parse_model w vm depth (prepend_messages pre st) c name
  = outcome_map (prepend_messages pre) (parse_model w vm depth st c name).
Proof.
  induction depth as [|depth IH]; intros st c name; cbn [parse_model]; [done|].
  change (visited vm (prepend_messages pre st)) with (visited vm st).
  destruct (decide (c ∈ visited vm st)); [done|].
  change (visited_add vm c (prepend_messages pre st))
    with (prepend_messages pre (visited_add vm c st)).
  rewrite (fields_loop_prepend _ _ IH).
  destruct (fields_loop _ _ _ _) as [[[st1 fs1] idx1]| |];
    cbn [mbind outcome_bind outcome_map]; try done.
  unfold messages_append, prepend_messages. simpl. by rewrite app_assoc.
Qed.

Lemma models_loop_prepend (depth : nat) (models : list py_class) :
  forall st,
  models_loop w vm depth (prepend_messages pre st) models
  = outcome_map (prepend_messages pre) (models_loop w vm depth st models).
Proof.
  induction models as [|m models IH]; intros st; cbn [models_loop]; [done|].
  rewrite parse_model_prepend.
  destruct (parse_model w vm depth st m _) as [st1| |];
    cbn [mbind outcome_bind outcome_map]; [apply IH|done..].
Qed.

End Prefix.

(** X16. Two calls in a row that share a non-empty set as
    [already_visited] emit together what one call on both lists of models
    emits: the call on both lists returns the messages of the second call
    followed by those of the first, and leaves the set as the second call
    does. *)
Theorem split_call (w : world) (depth : nat)
    (h h1 h2 : gmap loc (gset py_class)) (models1 models2 : list py_class)
    (l : loc) (S : gset py_class) (schema1 schema2 : string) :
  h !! l = Some S -> S ≠ ∅ ->
  pydantic_models_to_protos depth w h models1 (Some l) = Ok (schema1, h1) ->
  pydantic_models_to_protos depth w h1 models2 (Some l) = Ok (schema2, h2) ->
  exists messages1 messages2,
    schema1 = Str.join Str.nl messages1 /\
    schema2 = Str.join Str.nl messages2 /\
    pydantic_models_to_protos depth w h (models1 ++ models2) (Some l)
    = Ok (Str.join Str.nl (messages2 ++ messages1), h2).
Proof.
  intros Hl HS Hgen1 Hgen2.
  destruct (generate_returns_inv _ _ _ _ _ _ _ Hgen1)
    as (vm & h0 & st1 & Hor & Hloop1 & -> & ->).
  rewrite (or_new_set_shared h l S) in Hor by done. injection Hor as <- <-.
  destruct (models_loop_emits w l _ _ _ _ Hloop1) as (cs & He & _).
  assert (Hsome : is_Some (heap (State h []) !! l)) by (simpl; rewrite Hl; eauto).
  destruct (emits_alloc _ _ _ _ _ He Hsome) as [S1 HS1].
  assert (HSS1 : S ⊆ S1).
  { pose proof (emits_visited _ _ _ _ _ He) as HV. unfold visited in HV. simpl in HV.
    rewrite (lookup_total_correct _ _ _ HS1), (lookup_total_correct _ _ _ Hl) in HV.
    set_solver. }
  destruct (generate_returns_inv _ _ _ _ _ _ _ Hgen2)
    as (vm & h0 & st2 & Hor & Hloop2 & -> & ->).
  rewrite (or_new_set_shared (heap st1) l S1) in Hor by (done || set_solver).
  injection Hor as <- <-.
  exists (reverse (proto_messages st1)), (reverse (proto_messages st2)).
  split; [done|]. split; [done|].
  unfold pydantic_models_to_protos. rewrite (or_new_set_shared h l S) by done.
  rewrite models_loop_app, Hloop1. cbn [mbind outcome_bind].
  replace st1 with (prepend_messages (proto_messages st1) (State (heap st1) []))
    at 1 by (destruct st1; unfold prepend_messages; simpl; by rewrite app_nil_r).
  rewrite models_loop_prepend, Hloop2. cbn [outcome_map mbind outcome_bind].
  unfold prepend_messages. simpl. by rewrite reverse_app.
Qed.

Lemma split_call_witness :
  exists messages1 messages2,
    "message Item {" +:+ Str.nl +:+ "    string name = 1;;" +:+ Str.nl +:+ "}" +:+ Str.nl
    = Str.join Str.nl messages1 /\
    "message Box {" +:+ Str.nl +:+ "    map<string, Item> items = 1;;" +:+ Str.nl
      +:+ "}" +:+ Str.nl
    = Str.join Str.nl messages2 /\
    pydantic_models_to_protos 2 Examples.box_world {[7 := {[Cint]}]}
      ([Cobj 1] ++ [Cobj 0]) (Some 7)
    = Ok (Str.join Str.nl (messages2 ++ messages1), {[7 := {[Cint; Cobj 1; Cobj 0]}]}).
Proof.
  apply (split_call Examples.box_world 2 {[7 := {[Cint]}]}
           {[7 := {[Cint; Cobj 1]}]} _ [Cobj 1] [Cobj 0] 7 {[Cint]}).
  - reflexivity.
  - vm_compute. discriminate.
  - vm_compute. reflexivity.
  - vm_compute. reflexivity.
Defined.

(** ** Layout of a message *)

(** X17. A message is its header [message name {], then every line
    indented by four blanks and followed by a semicolon and a line feed,
    then the closing brace and a line feed. *)
Theorem build_message_layout (message_name : string) (fields : list string) :
  build_message message_name fields
  = "message " +:+ message_name +:+ " {" +:+ Str.nl
    +:+ foldr (fun field rest => "    " +:+ field +:+ ";" +:+ Str.nl +:+ rest)
          ("}" +:+ Str.nl) fields.
Proof.
  unfold build_message.
  assert (Hfold : forall init,
            fold_left (fun message field => message +:+ "    " +:+ field +:+ ";" +:+ Str.nl)
              fields init +:+ "}" +:+ Str.nl
            = init +:+ foldr (fun field rest => "    " +:+ field +:+ ";" +:+ Str.nl +:+ rest)
                         ("}" +:+ Str.nl) fields).
  { induction fields as [|f fields IH]; intros init; cbn [fold_left foldr]; [done|].
    rewrite IH. by rewrite !StrFacts.app_assoc. }
  rewrite Hfold. by rewrite !StrFacts.app_assoc.
Qed.

(** ** References through two wrappers *)

(** C4. For [Node] with [children: Optional[List[Node]]] generation
    terminates with [Node] alone visited and one message, but the
    message does not refer to [Node] by name: once the optional wrapper
    is removed the list wrapper is left in place, no call is made for
    the field, and its line reads [string children = 2;]. *)
Theorem node_reference_is_lost (depth : nat) :
  pydantic_models_to_protos (S depth) Examples.node_world ∅ [Cobj 0] None
  = Ok ("message Node {" +:+ Str.nl
        +:+ "    int32 value = 1;;" +:+ Str.nl
        +:+ "    string children = 2;;" +:+ Str.nl
        +:+ "}" +:+ Str.nl,
        {[0 := {[Cobj 0]}]}) /\
  field_shape (Examples.Optional (Examples.List (TClass (Cobj 0))))
  = Ok (Plain false true (Examples.List (TClass (Cobj 0)))) /\
  nested_model Examples.node_world
    (Examples.Optional (Examples.List (TClass (Cobj 0)))) = None /\
  model_lines Examples.node_world (Cobj 0)
  = ["int32 value = 1;"; "string children = 2;"].
Proof. split_and!; by vm_compute. Qed.

(** C6. For [Outer] with [inner: Optional[List[Inner]]] the schema
    generated for [[Outer; Inner]] in one call has the message of
    [Inner] before the message of [Outer]: no call is made on [Inner]
    while the fields of [Outer] are processed, so [Inner] is emitted as
    the second request, and the accumulator is reversed. *)
Theorem nested_reference_comes_second (depth : nat) :
  schema_of (pydantic_models_to_protos (S depth) Examples.nesting_world ∅
               [Cobj 0; Cobj 1] None)
  = Ok ("message Inner {" +:+ Str.nl
        +:+ "    string name = 1;;" +:+ Str.nl
        +:+ "}" +:+ Str.nl +:+ Str.nl
        +:+ "message Outer {" +:+ Str.nl
        +:+ "    string inner = 1;;" +:+ Str.nl
        +:+ "}" +:+ Str.nl) /\
  nested_model Examples.nesting_world
    (Examples.Optional (Examples.List (TClass (Cobj 1)))) = None.
Proof. split; by vm_compute. Qed.

(** A field annotated with a bare [typing.List] makes the call raise
    [AttributeError]. *)
Lemma bare_list_raises (depth : nat) :
  schema_of (pydantic_models_to_protos (S depth)
               (fun _ => Examples.dataclass_class "Bare" [("items", TBare OList)])
               ∅ [Cobj 0] None)
  = Raise AttributeError.
Proof. by vm_compute. Qed.
